(** * go-get-imgs: the URL validator, the extension resolver, the row
      processor and the fetcher, embedded from the Go sources

    - [internal/utils/url.go]           : [utils.IsValidURL]
    - [internal/downloader] (package downloader) : [DownloadImage],
      [getExtensionFromContentType], [GetExtensionFromURL]
    - [internal/csv/processor.go]       : [ProcessCSV]

    Go strings are byte sequences: they are [string]s here, one [ascii]
    per byte.  A Go [int] is a 64-bit two's complement integer on every
    platform the project builds for (amd64, arm64): it is a [Z] and every
    arithmetic operation of the source is followed by [wrap]. *)

From Stdlib Require Import ZArith Lia Bool List Ascii String DecimalString.
From Stdlib Require DecimalZ DecimalPos.
From stdpp Require Import gmap strings list.

Local Open Scope string_scope.
Local Open Scope Z_scope.

(** ** Go's [int] *)

Module GoInt.

Definition MinInt : Z := - 2 ^ 63.
Definition MaxInt : Z := 2 ^ 63 - 1.

(** Two's complement wrap-around of a 64-bit signed integer. *)
Definition wrap (z : Z) : Z := (z + 2 ^ 63) mod 2 ^ 64 - 2 ^ 63.

Definition is_int (z : Z) : bool := (MinInt <=? z) && (z <=? MaxInt).

Definition add (a b : Z) : Z := wrap (a + b).
Definition sub (a b : Z) : Z := wrap (a - b).

(** [x++] *)
Definition incr (x : Z) : Z := add x 1.

(** [len(s)] of a slice, an [int]. *)
Definition len {A} (s : list A) : Z := Z.of_nat (length s).

(** [s[i]]: [None] stands for the run-time panic "index out of range". *)
Definition index {A} (s : list A) (i : Z) : option A :=
  if (i <? 0) || (len s <=? i) then None else nth_error s (Z.to_nat i).

(** [fmt.Sprintf("%d", n)] *)
Definition itoa (n : Z) : string := NilZero.string_of_int (Z.to_int n).

End GoInt.

(** ** Package [unicode/utf8] and [unicode.IsSpace] *)

Module utf8.

Definition RuneError : Z := 65533.  (* U+FFFD *)
Definition RuneSelf : Z := 128.
Definition UTFMax : nat := 4.

Definition byte (c : ascii) : Z := Z.of_N (N_of_ascii c).

(** [s[i]] for [i < len(s)]; the callers below guard every access. *)
Definition at_ (s : string) (i : nat) : Z :=
  match String.get i s with Some c => byte c | None => 0 end.

(** [s[i:j]] *)
Definition slice (s : string) (i j : nat) : string := String.substring i (j - i) s.

(** [s[i:]] *)
Definition from (s : string) (i : nat) : string := slice s i (String.length s).

(** The table [first] and the [acceptRanges] of the package, by ranges of
    the leading byte: the size of the sequence and the bounds of its
    second byte; [None] is an invalid leading byte ([xx]). *)
Definition first (b : Z) : option (nat * Z * Z) :=
  if b <? 194 then None                       (* 0x80-0xC1 *)
  else if b <=? 223 then Some (2%nat, 128, 191)    (* 0xC2-0xDF: s1 *)
  else if b =? 224 then Some (3%nat, 160, 191)     (* 0xE0: s2 *)
  else if b <=? 236 then Some (3%nat, 128, 191)    (* 0xE1-0xEC: s3 *)
  else if b =? 237 then Some (3%nat, 128, 159)     (* 0xED: s4 *)
  else if b <=? 239 then Some (3%nat, 128, 191)    (* 0xEE-0xEF: s3 *)
  else if b =? 240 then Some (4%nat, 144, 191)     (* 0xF0: s5 *)
  else if b <=? 243 then Some (4%nat, 128, 191)    (* 0xF1-0xF3: s6 *)
  else if b =? 244 then Some (4%nat, 128, 143)     (* 0xF4: s7 *)
  else None.                                  (* 0xF5-0xFF *)

Definition cont (b : Z) : bool := (128 <=? b) && (b <=? 191).

(** [utf8.DecodeRuneInString]: the rune and its width in bytes. *)
Definition DecodeRuneInString (s : string) : Z * nat :=
  let n := String.length s in
  if (n <? 1)%nat then (RuneError, 0%nat)
  else
    let s0 := at_ s 0 in
    if s0 <? RuneSelf then (s0, 1%nat)
    else match first s0 with
    | None => (RuneError, 1%nat)
    | Some (sz, lo, hi) =>
      if (n <? sz)%nat then (RuneError, 1%nat)
      else
        let s1 := at_ s 1 in
        if (s1 <? lo) || (hi <? s1) then (RuneError, 1%nat)
        else if (sz <=? 2)%nat then
          (Z.lor (Z.shiftl (Z.land s0 31) 6) (Z.land s1 63), 2%nat)
        else
          let s2 := at_ s 2 in
          if negb (cont s2) then (RuneError, 1%nat)
          else if (sz <=? 3)%nat then
            (Z.lor (Z.lor (Z.shiftl (Z.land s0 15) 12) (Z.shiftl (Z.land s1 63) 6))
                   (Z.land s2 63), 3%nat)
          else
            let s3 := at_ s 3 in
            if negb (cont s3) then (RuneError, 1%nat)
            else
              (Z.lor (Z.lor (Z.lor (Z.shiftl (Z.land s0 7) 18)
                                   (Z.shiftl (Z.land s1 63) 12))
                            (Z.shiftl (Z.land s2 63) 6))
                     (Z.land s3 63), 4%nat)
    end.

(** [utf8.RuneStart] *)
Definition RuneStart (b : Z) : bool := negb (Z.land b 192 =? 128).

(** The backward scan of [DecodeLastRuneInString]:
    [for start--; start >= lim; start-- { if RuneStart(s[start]) { break } }]
    entered with [k] bytes left to visit above [lim]; the result is the
    final [start], as an integer (it can be [lim - 1]). *)
Fixpoint scan_back (s : string) (lim : nat) (k : nat) : Z :=
  match k with
  | O => Z.of_nat lim - 1
  | S k' => if RuneStart (at_ s (lim + k')) then Z.of_nat (lim + k')
            else scan_back s lim k'
  end.

(** [utf8.DecodeLastRuneInString] *)
Definition DecodeLastRuneInString (s : string) : Z * nat :=
  let end_ := String.length s in
  if (end_ =? 0)%nat then (RuneError, 0%nat)
  else
    let r := at_ s (end_ - 1) in
    if r <? RuneSelf then (r, 1%nat)
    else
      let lim := (end_ - UTFMax)%nat in
      let start := scan_back s lim (end_ - 1 - lim) in
      let start := Z.to_nat (if start <? 0 then 0 else start) in
      let '(r, size) := DecodeRuneInString (slice s start end_) in
      if negb (start + size =? end_)%nat then (RuneError, 1%nat)
      else (r, size).

End utf8.

Module unicode.

(** [unicode.IsSpace]: the Latin-1 cases of the source and the
    [White_Space] range table above Latin-1. *)
Definition IsSpace (r : Z) : bool :=
  if (0 <=? r) && (r <=? 255) then
    (r =? 9) || (r =? 10) || (r =? 11) || (r =? 12) || (r =? 13) || (r =? 32)
    || (r =? 133) || (r =? 160)
  else
    (r =? 5760) || ((8192 <=? r) && (r <=? 8202)) || (r =? 8232) || (r =? 8233)
    || (r =? 8239) || (r =? 8287) || (r =? 12288).

End unicode.

(** ** Package [strings] *)

Module strings.

Import utf8.

(** [len(s)] *)
Definition len (s : string) : Z := Z.of_nat (String.length s).

(** [strings.HasPrefix(s, prefix)] *)
Fixpoint HasPrefix (s prefix : string) {struct prefix} : bool :=
  match prefix, s with
  | EmptyString, _ => true
  | String _ _, EmptyString => false
  | String p prefix', String c s' => Ascii.eqb c p && HasPrefix s' prefix'
  end.

(** [strings.Contains(s, substr)] *)
Fixpoint Contains (s substr : string) : bool :=
  HasPrefix s substr ||
  match s with
  | EmptyString => false
  | String _ s' => Contains s' substr
  end.

(** The table [asciiSpace]: ['\t', '\n', '\v', '\f', '\r', ' ']. *)
Definition asciiSpace (c : Z) : bool :=
  (c =? 9) || (c =? 10) || (c =? 11) || (c =? 12) || (c =? 13) || (c =? 32).

(** [indexFunc(s, f, truth)], the loop [for i, r := range s] resumed at
    byte [i]; every rune is at least one byte wide, so [len(s)] rounds of
    [fuel] reach the end of the string. *)
Fixpoint indexFunc_from (fuel : nat) (s : string) (f : Z -> bool) (truth : bool)
    (i : nat) : Z :=
  match fuel with
  | O => -1
  | S fuel' =>
    if (String.length s <=? i)%nat then -1
    else
      let '(r, size) := DecodeRuneInString (from s i) in
      if Bool.eqb (f r) truth then Z.of_nat i
      else indexFunc_from fuel' s f truth (i + size)
  end.

Definition indexFunc (s : string) (f : Z -> bool) (truth : bool) : Z :=
  indexFunc_from (String.length s) s f truth 0.

(** [lastIndexFunc(s, f, truth)], the loop [for i := len(s); i > 0; ]
    resumed at [i]. *)
Fixpoint lastIndexFunc_from (fuel : nat) (s : string) (f : Z -> bool) (truth : bool)
    (i : nat) : Z :=
  match fuel with
  | O => -1
  | S fuel' =>
    if (i =? 0)%nat then -1
    else
      let '(r, size) := DecodeLastRuneInString (slice s 0 i) in
      let i := (i - size)%nat in
      if Bool.eqb (f r) truth then Z.of_nat i
      else lastIndexFunc_from fuel' s f truth i
  end.

Definition lastIndexFunc (s : string) (f : Z -> bool) (truth : bool) : Z :=
  lastIndexFunc_from (String.length s) s f truth (String.length s).

(** [strings.TrimLeftFunc] *)
Definition TrimLeftFunc (s : string) (f : Z -> bool) : string :=
  let i := indexFunc s f false in
  if i =? -1 then "" else from s (Z.to_nat i).

(** [strings.TrimRightFunc] *)
Definition TrimRightFunc (s : string) (f : Z -> bool) : string :=
  let i := lastIndexFunc s f false in
  let i :=
    if (0 <=? i) && (RuneSelf <=? at_ s (Z.to_nat i)) then
      let '(_, wid) := DecodeRuneInString (from s (Z.to_nat i)) in
      i + Z.of_nat wid
    else i + 1 in
  slice s 0 (Z.to_nat i).

(** [strings.TrimFunc] *)
Definition TrimFunc (s : string) (f : Z -> bool) : string :=
  TrimRightFunc (TrimLeftFunc s f) f.

(** The second loop of [strings.TrimSpace], on [s[start:]]:
    [for ; stop > start; stop-- ]. *)
Fixpoint TrimSpace_stop (s : string) (stop : nat) : string :=
  match stop with
  | O => slice s 0 0
  | S stop' =>
    let c := at_ s stop' in
    if RuneSelf <=? c then TrimRightFunc (slice s 0 stop) unicode.IsSpace
    else if negb (asciiSpace c) then slice s 0 stop
    else TrimSpace_stop s stop'
  end.

(** [strings.TrimSpace]: the first loop [for ; start < len(s); start++]
    drops the leading ASCII space bytes one at a time; a byte outside
    ASCII hands the rest of the string to the Unicode-aware functions. *)
Fixpoint TrimSpace (s : string) : string :=
  match s with
  | EmptyString => TrimSpace_stop s (String.length s)
  | String c s' =>
    if RuneSelf <=? byte c then TrimFunc s unicode.IsSpace
    else if negb (asciiSpace (byte c)) then TrimSpace_stop s (String.length s)
    else TrimSpace s'
  end.

(** The ASCII path of [strings.ToLower]: [c += 'a' - 'A'] on the bytes
    ['A'..'Z']. *)
Definition lowerByte (c : ascii) : ascii :=
  if (65 <=? byte c) && (byte c <=? 90) then ascii_of_N (N_of_ascii c + 32) else c.

Fixpoint lowerASCII (s : string) : string :=
  match s with
  | EmptyString => EmptyString
  | String c s' => String (lowerByte c) (lowerASCII s')
  end.

Fixpoint isASCII (s : string) : bool :=
  match s with
  | EmptyString => true
  | String c s' => (byte c <? RuneSelf) && isASCII s'
  end.

Section ToLower.

(** [strings.Map(unicode.ToLower, s)], which [strings.ToLower] takes on
    a string with a byte outside ASCII.  It reads the Unicode case tables
    of the Go runtime, which are no part of this repository: every
    result below holds whatever this function returns. *)
Variable mapUnicodeLower : string -> string.

(** [strings.ToLower] *)
Definition ToLower (s : string) : string :=
  if isASCII s then lowerASCII s else mapUnicodeLower s.

End ToLower.

End strings.

(** ** Package [path/filepath] and [os.IsPathSeparator] *)

Module filepath.

Import utf8.

(** The operating systems the project is built for. *)
Inductive GOOS := linux | darwin | windows.

(** [os.IsPathSeparator]: ['/'] everywhere, and ['\\'] on Windows. *)
Definition IsPathSeparator (goos : GOOS) (c : ascii) : bool :=
  match goos with
  | windows => Ascii.eqb c "/" || Ascii.eqb c "\"
  | _ => Ascii.eqb c "/"
  end.

(** The loop of [filepath.Ext]:
    [for i := len(path) - 1; i >= 0 && !os.IsPathSeparator(path[i]); i--],
    entered with [i + 1 = n]. *)
Fixpoint Ext_loop (goos : GOOS) (path : string) (n : nat) : string :=
  match n with
  | O => ""
  | S i =>
    match String.get i path with
    | None => ""
    | Some c =>
      if IsPathSeparator goos c then ""
      else if Ascii.eqb c "." then from path i
      else Ext_loop goos path i
    end
  end.

(** [filepath.Ext] *)
Definition Ext (goos : GOOS) (path : string) : string :=
  Ext_loop goos path (String.length path).

End filepath.

(** ** [internal/utils/url.go] *)

Module utils.

Import strings.

Definition validSchemes : list string := ["http://"; "https://"; "ftp://"; "file://"].

(** The first loop of [IsValidURL]: [hasValidScheme]. *)
Fixpoint hasValidScheme (trimmed : string) (schemes : list string) : bool :=
  match schemes with
  | [] => false
  | scheme :: schemes' =>
    if HasPrefix trimmed scheme then true else hasValidScheme trimmed schemes'
  end.

(** The last loop of [IsValidURL]: the first scheme that is a prefix
    decides; [return false] after the loop. *)
Fixpoint afterSchemeCheck (trimmed : string) (schemes : list string) : bool :=
  match schemes with
  | [] => false
  | scheme :: schemes' =>
    if HasPrefix trimmed scheme then
      let afterScheme := utf8.from trimmed (String.length scheme) in
      (0 <? len afterScheme) && negb (Contains afterScheme " ")
    else afterSchemeCheck trimmed schemes'
  end.

(** [func IsValidURL(url string) bool] *)
Definition IsValidURL (url : string) : bool :=
  let trimmed := TrimSpace url in
  if String.eqb trimmed "" then false
  else if negb (hasValidScheme trimmed validSchemes) then false
  else if HasPrefix trimmed "file://" then 7 <? len trimmed
  else afterSchemeCheck trimmed validSchemes.

End utils.

(** ** Package [downloader] *)

Module downloader.

Import strings filepath.

(** [getExtensionFromContentType]: the [switch] takes the first case whose
    marker occurs in the header value. *)
Definition getExtensionFromContentType (contentType : string) : string :=
  if Contains contentType "image/jpeg" then ".jpg"
  else if Contains contentType "image/jpg" then ".jpg"
  else if Contains contentType "image/png" then ".png"
  else if Contains contentType "image/gif" then ".gif"
  else if Contains contentType "image/webp" then ".webp"
  else if Contains contentType "image/bmp" then ".bmp"
  else if Contains contentType "image/tiff" then ".tiff"
  else "".

(** [GetExtensionFromContentType], the exported copy of the same switch. *)
Definition GetExtensionFromContentType (contentType : string) : string :=
  if Contains contentType "image/jpeg" then ".jpg"
  else if Contains contentType "image/jpg" then ".jpg"
  else if Contains contentType "image/png" then ".png"
  else if Contains contentType "image/gif" then ".gif"
  else if Contains contentType "image/webp" then ".webp"
  else if Contains contentType "image/bmp" then ".bmp"
  else if Contains contentType "image/tiff" then ".tiff"
  else "".

Definition validExts : list string :=
  [".jpg"; ".jpeg"; ".png"; ".gif"; ".webp"; ".bmp"; ".tiff"; ".tif"].

(** [for _, validExt := range validExts { if ext == validExt { return ext } }]
    followed by the final [return ""]. *)
Fixpoint matchValidExt (ext : string) (exts : list string) : string :=
  match exts with
  | [] => ""
  | validExt :: exts' =>
    if String.eqb ext validExt then ext else matchValidExt ext exts'
  end.

(** [http.StatusOK] *)
Definition StatusOK : Z := 200.

(** What [DownloadImage] reads of an [*http.Response]. *)
Record Response := {
  StatusCode : Z;
  ContentType : string;   (* resp.Header.Get("Content-Type") *)
  Body : string
}.

(** [type Downloader struct { client *http.Client }]: the client is what
    [client.Get] answers, [None] when it returns an error (connection
    failure, timeout, unsupported scheme). *)
Record Downloader := {
  client : string -> option Response
}.

(** The errors [DownloadImage] builds with [fmt.Errorf]. *)
Inductive error :=
| HTTPRequestFailed               (* "HTTP request failed: %v" *)
| HTTPStatus (code : Z)           (* "HTTP status %d" *)
| FailedToCreateFile              (* "failed to create file: %v" *)
| FailedToWriteFile.              (* "failed to write file: %v" *)

Section Fetcher.

(** The platform the binary runs on. *)
Variable goos : GOOS.

(** The Unicode path of [strings.ToLower]. *)
Variable mapUnicodeLower : string -> string.

(** [filepath.Join], of the Go library. *)
Variable Join : string -> string -> string.

(** Whether [os.Create] succeeds on a path (the directory exists, the
    process may write there). *)
Variable creatable : string -> bool.

(** When [io.Copy] into the file at a path fails: after how many bytes,
    [None] when it does not fail. *)
Variable copyStops : string -> option nat.

(** [GetExtensionFromURL] *)
Definition GetExtensionFromURL (url : string) : string :=
  let ext := Ext goos url in
  if negb (String.eqb ext "") then
    let ext := ToLower mapUnicodeLower ext in
    matchValidExt ext validExts
  else "".

(** [os.Create(filepath)] followed by [io.Copy(file, resp.Body)]: lines
    51 to 62 of [DownloadImage].  The file system [fs] holds the
    contents of the files, by path. *)
Definition createAndCopy (fs : gmap string string) (filepath : string) (body : string)
    : gmap string string * option error :=
  if negb (creatable filepath) then (fs, Some FailedToCreateFile)
  else
    let fs := <[filepath := ""]> fs in
    match copyStops filepath with
    | Some k => (<[filepath := utf8.slice body 0 k]> fs, Some FailedToWriteFile)
    | None => (<[filepath := body]> fs, None)
    end.

(** [func (d *Downloader) DownloadImage(url, downloadDir string, rowNum int) error],
    on the file system [fs]: the file system it leaves and the error it
    returns ([None] is [nil]). *)
Definition DownloadImage (d : Downloader) (fs : gmap string string)
    (url downloadDir : string) (rowNum : Z) : gmap string string * option error :=
  match client d url with
  | None => (fs, Some HTTPRequestFailed)
  | Some resp =>
    if negb (StatusCode resp =? StatusOK) then (fs, Some (HTTPStatus (StatusCode resp)))
    else
      let contentType := ContentType resp in
      let extension := getExtensionFromContentType contentType in
      let extension :=
        if String.eqb extension "" then
          let extension := GetExtensionFromURL url in
          if String.eqb extension "" then ".jpg" else extension
        else extension in
      let filename := "image_" ++ GoInt.itoa rowNum ++ extension in
      let filepath := Join downloadDir filename in
      createAndCopy fs filepath (Body resp)
  end.

End Fetcher.

End downloader.

(** ** Package [csv] ([internal/csv/processor.go]) *)

Module csv.

Import strings GoInt.

(** [type ProcessResult struct] *)
Record ProcessResult := {
  SuccessCount : Z;
  ErrorCount : Z;
  TotalRows : Z
}.

(** The errors [ProcessCSV] builds with [fmt.Errorf]. *)
Inductive error :=
| FailedToOpen                          (* "failed to open CSV file: %v" *)
| FailedToReadHeader                    (* "failed to read CSV header: %v" *)
| HeaderTooShort (expected got : Z).    (* "expected at least %d columns in header, got %d" *)

(** A [*csv.Reader] over an opened file, as [ProcessCSV] sees it: what the
    successive calls of [reader.Read()] return, [Some record] or [None] for
    a non-nil error (a malformed record, a record whose number of fields
    differs from the header's, which [encoding/csv] reports as
    [ErrFieldCount]).  Past the end of the list [Read] returns [io.EOF]. *)
Definition Reader : Type := list (option (list string)).

(** [reader.Read()]: the record when [err == nil], and the reader after
    the call. *)
Definition Read (reader : Reader) : option (list string) * Reader :=
  match reader with
  | [] => (None, [])
  | r :: reader' => (r, reader')
  end.

Section Processor.

(** The state the callback acts on (the network, the disk, the terminal)
    and the errors it returns. *)
Context {W E : Type}.

(** [os.Open(csvFile)] followed by [csv.NewReader(file)]; [None] when the
    file cannot be opened. *)
Variable os_Open : string -> option Reader.

(** [downloadFunc func(url string, rowNum int) error]; [None] is [nil]. *)
Definition Callback : Type := string -> Z -> W -> option E * W.

(** How one round of the [for] loop ends after a record was read: at the
    next round, or in the run-time panic of an index out of range. *)
Inductive Step :=
| Next (result : ProcessResult) (rowNum : Z) (w : W)
| Panic (w : W).

(** How a call of [ProcessCSV] ends: it returns its two results (either
    can be [nil], that is [None]), or it panics. *)
Inductive Outcome :=
| Returned (result : option ProcessResult) (err : option error) (w : W)
| Panicked (w : W).

Definition incrTotalRows (r : ProcessResult) : ProcessResult :=
  {| SuccessCount := SuccessCount r; ErrorCount := ErrorCount r;
     TotalRows := incr (TotalRows r) |}.

Definition incrErrorCount (r : ProcessResult) : ProcessResult :=
  {| SuccessCount := SuccessCount r; ErrorCount := incr (ErrorCount r);
     TotalRows := TotalRows r |}.

Definition incrSuccessCount (r : ProcessResult) : ProcessResult :=
  {| SuccessCount := incr (SuccessCount r); ErrorCount := ErrorCount r;
     TotalRows := TotalRows r |}.

(** The body of the [for] loop of [ProcessCSV] once [reader.Read()] has
    returned [row] without error (lines 54 to 75). *)
Definition processRow (urlColumnIndex : Z) (downloadFunc : Callback)
    (row : list string) (result : ProcessResult) (rowNum : Z) (w : W) : Step :=
  let result := incrTotalRows result in
  if len row <? urlColumnIndex then
    Next (incrErrorCount result) (incr rowNum) w
  else
    match index row (sub urlColumnIndex 1) with
    | None => Panic w
    | Some cell =>
      let imageURL := TrimSpace cell in
      if String.eqb imageURL "" then
        Next (incrErrorCount result) (incr rowNum) w
      else
        let '(err, w) := downloadFunc imageURL rowNum w in
        match err with
        | Some _ => Next (incrErrorCount result) (incr rowNum) w
        | None => Next (incrSuccessCount result) (incr rowNum) w
        end
    end.

(** The [for] loop of [ProcessCSV]: it ends ([break]) at the first
    [Read] that returns an error, [io.EOF] included, and the function
    returns [result, nil]. *)
Fixpoint loop (urlColumnIndex : Z) (downloadFunc : Callback)
    (reader : Reader) (result : ProcessResult) (rowNum : Z) (w : W) : Outcome :=
  match reader with
  | [] => Returned (Some result) None w
  | None :: _ => Returned (Some result) None w
  | Some row :: reader' =>
    match processRow urlColumnIndex downloadFunc row result rowNum w with
    | Panic w => Panicked w
    | Next result rowNum w => loop urlColumnIndex downloadFunc reader' result rowNum w
    end
  end.

(** [func (p *Processor) ProcessCSV(csvFile string, urlColumnIndex int,
    downloadFunc func(url string, rowNum int) error)], which returns a
    pointer to a [ProcessResult] and an [error]. *)
Definition ProcessCSV (csvFile : string) (urlColumnIndex : Z)
    (downloadFunc : Callback) (w : W) : Outcome :=
  match os_Open csvFile with
  | None => Returned None (Some FailedToOpen) w
  | Some reader =>
    match Read reader with
    | (None, _) => Returned None (Some FailedToReadHeader) w
    | (Some header, reader) =>
      if len header <? urlColumnIndex then
        Returned None (Some (HeaderTooShort urlColumnIndex (len header))) w
      else
        loop urlColumnIndex downloadFunc reader
             {| SuccessCount := 0; ErrorCount := 0; TotalRows := 0 |} 1 w
    end
  end.

End Processor.

(** The callback [f] with a record of its calls: the state carries the
    list of the arguments [f] was called with, oldest first. *)
Definition logged {W E : Type} (f : @Callback W E) : @Callback (list (string * Z) * W) E :=
  fun url rowNum st =>
    let '(e, w) := f url rowNum (snd st) in
    (e, ((fst st ++ [(url, rowNum)])%list, w)).

(** The records read after the header before the reader first returns an
    error or reaches the end of the input. *)
Fixpoint records_read (reader : Reader) : list (list string) :=
  match reader with
  | Some row :: reader' => row :: records_read reader'
  | _ => []
  end.

(** The errors [ValidateCSVStructure] builds with [fmt.Errorf]. *)
Inductive validationError :=
| OpenForValidationFailed        (* "failed to open CSV file for validation: %v" *)
| HeaderUnreadable               (* "failed to read CSV header: %v" *)
| HeaderColumns (expected got : Z)
    (* "expected at least %d columns in header, got %d" *)
| RowColumns (rowCount expected got : Z).
    (* "row %d: expected at least %d columns, got %d" *)

(** The [for] loop of [ValidateCSVStructure]: it ends ([break]) at the
    first [Read] that returns an error, and returns from the function at
    the first record with fewer than [expectedColumns] fields. *)
Fixpoint validateRows (expectedColumns : Z) (reader : Reader) (rowCount : Z)
    : option validationError :=
  match reader with
  | [] => None
  | None :: _ => None
  | Some row :: reader' =>
    let rowCount := incr rowCount in
    if len row <? expectedColumns then
      Some (RowColumns rowCount expectedColumns (len row))
    else validateRows expectedColumns reader' rowCount
  end.

(** [func (p *Processor) ValidateCSVStructure(filename string,
    expectedColumns int) error]; [None] is [nil]. *)
Definition ValidateCSVStructure (os_Open : string -> option Reader)
    (filename : string) (expectedColumns : Z) : option validationError :=
  match os_Open filename with
  | None => Some OpenForValidationFailed
  | Some reader =>
    match Read reader with
    | (None, _) => Some HeaderUnreadable
    | (Some header, reader) =>
      if len header <? expectedColumns then
        Some (HeaderColumns expectedColumns (len header))
      else validateRows expectedColumns reader 0
    end
  end.

End csv.

(** ** The command line ([cmd/go-get-imgs/main.go]) *)

Module cli.

(** The errors of the callback [main] passes to [ProcessCSV]. *)
Inductive error :=
| InvalidURLFormat (url : string)         (* "invalid URL format: %s" *)
| DownloadFailed (e : downloader.error).

Definition downloadsDir : string := "downloads".

(** The function literal of [main]: it validates the URL and downloads the
    image; the state it acts on is the file system (what it prints is left
    out). *)
Definition onRow (goos : filepath.GOOS) (mapUnicodeLower : string -> string)
    (Join : string -> string -> string) (creatable : string -> bool)
    (copyStops : string -> option nat) (d : downloader.Downloader)
    : @csv.Callback (gmap string string) error :=
  fun url rowNum fs =>
    if negb (utils.IsValidURL url) then (Some (InvalidURLFormat url), fs)
    else
      let '(fs, err) :=
        downloader.DownloadImage goos mapUnicodeLower Join creatable copyStops
                                 d fs url downloadsDir rowNum in
      (option_map DownloadFailed err, fs).

End cli.

(** * What the specification says

    The statements of the specification, written from its words; the
    theorems below compare them with the functions above. *)

Module Spec.

Import strings filepath GoInt.

(** The bytes of a string. *)
Definition bytes (s : string) : list ascii := list_ascii_of_string s.

(** No byte of [s] is one of the bytes [blank] selects. *)
Definition free_of (blank : ascii -> bool) (s : string) : Prop :=
  forall c, In c (bytes s) -> blank c = false.

(** The space character, U+0020. *)
Definition is_space (c : ascii) : bool := Ascii.eqb c " ".

(** A whitespace character: tab, line feed, vertical tab, form feed,
    carriage return or space. *)
Definition is_whitespace (c : ascii) : bool :=
  let b := utf8.byte c in
  (b =? 9) || (b =? 10) || (b =? 11) || (b =? 12) || (b =? 13) || (b =? 32).

(** Every byte of [s] is a whitespace character. *)
Definition all_whitespace (s : string) : Prop :=
  forall c, In c (bytes s) -> is_whitespace c = true.

(** [t] is [s] without its leading and trailing whitespace. *)
Definition trimmed_of (s t : string) : Prop :=
  exists l r, s = l ++ t ++ r /\ all_whitespace l /\ all_whitespace r /\
    (forall c u, t = String c u -> is_whitespace c = false) /\
    (forall u c, t = u ++ String c "" -> is_whitespace c = false).

(** The three schemes other than [file://]. *)
Definition otherSchemes : list string := ["http://"; "https://"; "ftp://"].

(** Section 4.1: what [IsValidURL] answers on [s], where [blank] says
    which characters of the remainder make a URL invalid. *)
Definition IsValidURL_contract (blank : ascii -> bool) (s : string) : Prop :=
  let trimmed := TrimSpace s in
  (trimmed = "" -> utils.IsValidURL s = false) /\
  ((forall scheme rest, In scheme utils.validSchemes -> trimmed <> scheme ++ rest) ->
   utils.IsValidURL s = false) /\
  (forall rest, trimmed = "file://" ++ rest ->
     (utils.IsValidURL s = true <-> 7 < strings.len trimmed)) /\
  (forall scheme rest, In scheme otherSchemes -> trimmed = scheme ++ rest ->
     (utils.IsValidURL s = true <-> rest <> "" /\ free_of blank rest)).

(** Section 4.2: [e] is the extension after the last dot of the final
    path-like segment of [url], the dot included, or the empty string when
    that segment has no dot. *)
Definition extension_of (goos : GOOS) (url e : string) : Prop :=
  (exists p r, url = p ++ "." ++ r /\ e = "." ++ r /\
     free_of (fun c => Ascii.eqb c ".") r /\ free_of (IsPathSeparator goos) r)
  \/
  (e = "" /\
   forall p r, url = p ++ "." ++ r -> ~ free_of (IsPathSeparator goos) r).

(** Section 4.2: what [GetExtensionFromURL] answers on [url], whose
    extension [e] is the only one [extension_of] allows: the lower-cased
    extension when that is one of the eight allowed extensions, and
    nothing otherwise, so nothing when the URL has no dot.  The match
    ignores the case of the letters: a URL that ends in a dot and a tail
    [r] of ASCII bytes whose lower-casing makes the allowed extension [v]
    yields [v], and so [".jpg"] after [".JPG"]. *)
Definition GetExtensionFromURL_contract (goos : GOOS)
    (mapUnicodeLower : string -> string) (url : string) : Prop :=
  let result := downloader.GetExtensionFromURL goos mapUnicodeLower url in
  exists e, extension_of goos url e /\
    (forall e', extension_of goos url e' -> e' = e) /\
    (In (ToLower mapUnicodeLower e) downloader.validExts ->
     result = ToLower mapUnicodeLower e) /\
    (~ In (ToLower mapUnicodeLower e) downloader.validExts -> result = "") /\
    (result = "" \/
     (result = ToLower mapUnicodeLower e /\ In result downloader.validExts)) /\
    (free_of (fun c => Ascii.eqb c ".") url -> result = "") /\
    (forall p r v, In v downloader.validExts -> isASCII r = true ->
       lowerASCII ("." ++ r) = v ->
       downloader.GetExtensionFromURL goos mapUnicodeLower (p ++ "." ++ r) = v) /\
    (forall p, downloader.GetExtensionFromURL goos mapUnicodeLower (p ++ ".JPG") = ".jpg").

(** Section 4.2: the three tiers of the resolution of the extension. *)
Definition resolved_extension (fromContentType fromURL extension : string) : Prop :=
  (fromContentType <> "" /\ extension = fromContentType) \/
  (fromContentType = "" /\ fromURL <> "" /\ extension = fromURL) \/
  (fromContentType = "" /\ fromURL = "" /\ extension = ".jpg").

(** Section 4.4: on a response with status OK, [DownloadImage] creates
    the file [image_<rowNum><extension>] in the target directory, where
    the extension is resolved in three tiers; in particular it is [.png]
    when the content type maps to [.png], whatever the URL, and [.jpg]
    when neither resolver answers. *)
Definition DownloadImage_contract (goos : GOOS) (mapUnicodeLower : string -> string)
    (Join : string -> string -> string) (creatable : string -> bool)
    (copyStops : string -> option nat) (d : downloader.Downloader)
    (fs : gmap string string) (url downloadDir : string) (rowNum : Z)
    (resp : downloader.Response) : Prop :=
  let fromContentType :=
    downloader.getExtensionFromContentType (downloader.ContentType resp) in
  let fromURL := downloader.GetExtensionFromURL goos mapUnicodeLower url in
  exists extension,
    resolved_extension fromContentType fromURL extension /\
    downloader.DownloadImage goos mapUnicodeLower Join creatable copyStops
                             d fs url downloadDir rowNum
    = downloader.createAndCopy creatable copyStops fs
        (Join downloadDir ("image_" ++ itoa rowNum ++ extension))
        (downloader.Body resp) /\
    (fromContentType = ".png" -> extension = ".png") /\
    (fromContentType = "" -> fromURL = "" -> extension = ".jpg").

(** A slice has a length that is an [int]. *)
Definition is_slice {A} (s : list A) : bool := len s <=? MaxInt.

Section RowProcessor.

Context {W E : Type}.

(** The value at column [urlColumnIndex-1] of a row, when the row has
    that column. *)
Definition column (row : list string) (urlColumnIndex : Z) : option string :=
  index row (urlColumnIndex - 1).

(** Section 4.3, "per row": a row with fewer than [urlColumnIndex]
    columns or an empty trimmed URL counts as an error and the callback
    is not called (its record [log] and the state [w] are as before);
    any other row has the callback called once, with the trimmed URL and
    the row number, and counts as its result says; every record read goes
    through this round, and the loop goes on with the next record. *)
Definition row_contract (urlColumnIndex : Z) (f : @csv.Callback W E)
    (row : list string) (result : csv.ProcessResult) (rowNum : Z)
    (log : list (string * Z)) (w : W) : Prop :=
  let skipped :=
    len row < urlColumnIndex \/
    exists cell, column row urlColumnIndex = Some cell /\ TrimSpace cell = "" in
  let total := incr (csv.TotalRows result) in
  (skipped ->
     csv.processRow urlColumnIndex (csv.logged f) row result rowNum (log, w)
     = csv.Next {| csv.SuccessCount := csv.SuccessCount result;
                   csv.ErrorCount := incr (csv.ErrorCount result);
                   csv.TotalRows := total |}
                (incr rowNum) (log, w))
  /\
  (~ skipped ->
     exists cell, column row urlColumnIndex = Some cell /\
       let url := TrimSpace cell in
       let log' := (log ++ [(url, rowNum)])%list in
       csv.processRow urlColumnIndex (csv.logged f) row result rowNum (log, w)
       = match f url rowNum w with
         | (Some _, w') =>
             csv.Next {| csv.SuccessCount := csv.SuccessCount result;
                         csv.ErrorCount := incr (csv.ErrorCount result);
                         csv.TotalRows := total |}
                      (incr rowNum) (log', w')
         | (None, w') =>
             csv.Next {| csv.SuccessCount := incr (csv.SuccessCount result);
                         csv.ErrorCount := csv.ErrorCount result;
                         csv.TotalRows := total |}
                      (incr rowNum) (log', w')
         end)
  /\
  (forall reader st,
     csv.loop urlColumnIndex (csv.logged f) (Some row :: reader) result rowNum st
     = match csv.processRow urlColumnIndex (csv.logged f) row result rowNum st with
       | csv.Next result' rowNum' st' =>
           csv.loop urlColumnIndex (csv.logged f) reader result' rowNum' st'
       | csv.Panic st' => csv.Panicked st'
       end).

(** Section 4.3: on a file that opens and whose header has at least
    [urlColumnIndex] columns the call returns a result and no error, and
    a record that cannot be read ends the iteration as the end of the
    input does. *)
Definition returns_result (os_Open : string -> option csv.Reader)
    (csvFile : string) (urlColumnIndex : Z) (f : @csv.Callback W E) (w : W) : Prop :=
  forall header data,
    os_Open csvFile = Some (Some header :: data) ->
    urlColumnIndex <= len header ->
    (exists result w',
       csv.ProcessCSV os_Open csvFile urlColumnIndex f w
       = csv.Returned (Some result) None w') /\
    csv.ProcessCSV os_Open csvFile urlColumnIndex f w
    = csv.ProcessCSV
        (fun _ => Some (Some header :: map Some (csv.records_read data)))
        csvFile urlColumnIndex f w.

(** Section 7, structural errors: the file cannot be opened, the header
    cannot be read, or the header has fewer than [urlColumnIndex]
    columns. *)
Definition structural_failure (os_Open : string -> option csv.Reader)
    (csvFile : string) (urlColumnIndex : Z) : Prop :=
  os_Open csvFile = None \/
  (exists reader, os_Open csvFile = Some reader /\ fst (csv.Read reader) = None) \/
  (exists header data, os_Open csvFile = Some (Some header :: data) /\
                       len header < urlColumnIndex).

(** Section 8: when the call returns without error, the successes and
    the errors add up to [TotalRows] (in the arithmetic of [int], and
    exactly when the file has at most [MaxInt] records), and [TotalRows]
    is the number of records read after the header before the reader
    first returns an error or reaches the end of the input. *)
Definition counts_contract (os_Open : string -> option csv.Reader)
    (csvFile : string) (result : option csv.ProcessResult) : Prop :=
  exists r header data,
    result = Some r /\
    os_Open csvFile = Some (Some header :: data) /\
    let n := len (csv.records_read data) in
    add (csv.SuccessCount r) (csv.ErrorCount r) = csv.TotalRows r /\
    csv.TotalRows r = wrap n /\
    (n <= MaxInt ->
     csv.SuccessCount r + csv.ErrorCount r = csv.TotalRows r /\
     csv.TotalRows r = n).

(** The state a call leaves. *)
Definition final_state (o : @csv.Outcome W) : W :=
  match o with
  | csv.Returned _ _ w => w
  | csv.Panicked w => w
  end.

End RowProcessor.

(** The data records with their positions: the [n]-th record read after
    the header is paired with [n], from 1. *)
Definition numbered (records : list (list string)) : list (Z * list string) :=
  combine (map Z.of_nat (seq 1 (length records))) records.

(** The call the callback receives for the [n]-th record, if any. *)
Definition call_of (urlColumnIndex : Z) (nr : Z * list string) : option (string * Z) :=
  match column (snd nr) urlColumnIndex with
  | Some cell =>
    let url := TrimSpace cell in
    if String.eqb url "" then None else Some (url, fst nr)
  | None => None
  end.

(** The calls the specification expects, in order. *)
Definition expected_calls (urlColumnIndex : Z) (records : list (list string))
    : list (string * Z) :=
  omap (call_of urlColumnIndex) (numbered records).

(** The outcome of a run with the logged callback, the record of the
    calls left out. *)
Definition erase {W : Type} (o : @csv.Outcome (list (string * Z) * W)) : @csv.Outcome W :=
  match o with
  | csv.Returned result err st => csv.Returned result err (snd st)
  | csv.Panicked st => csv.Panicked (snd st)
  end.

(** The calls a run made: the record the logged callback leaves. *)
Definition calls_made {W : Type} (o : @csv.Outcome (list (string * Z) * W))
    : list (string * Z) :=
  fst (final_state o).

(** The guard on the length of a row protects the access
    [row[urlColumnIndex-1]] from column index 1 on, and only then. *)
Definition index_guard_contract (urlColumnIndex : Z) : Prop :=
  (1 <= urlColumnIndex ->
     (forall row : list string, urlColumnIndex <= len row ->
        exists cell, index row (sub urlColumnIndex 1) = Some cell) /\
     (forall (W E : Type) os_Open csvFile (f : @csv.Callback W E) w w',
        csv.ProcessCSV os_Open csvFile urlColumnIndex f w <> csv.Panicked w'))
  /\
  (urlColumnIndex <= 0 ->
     (forall header : list string, (len header <? urlColumnIndex) = false) /\
     (forall row : list string, is_slice row = true ->
        (len row <? urlColumnIndex) = false /\
        index row (sub urlColumnIndex 1) = None) /\
     (forall (W E : Type) os_Open csvFile (f : @csv.Callback W E) w header,
        os_Open csvFile = Some [Some header] ->
        csv.ProcessCSV os_Open csvFile urlColumnIndex f w
        = csv.Returned
            (Some {| csv.SuccessCount := 0; csv.ErrorCount := 0; csv.TotalRows := 0 |})
            None w) /\
     (forall (W E : Type) os_Open csvFile (f : @csv.Callback W E) w header row data,
        os_Open csvFile = Some (Some header :: Some row :: data) ->
        is_slice row = true ->
        csv.ProcessCSV os_Open csvFile urlColumnIndex f w = csv.Panicked w)).

(** The column index is an [int], the records read are fewer than [2^63]
    and each of them is a slice. *)
Definition well_typed (urlColumnIndex : Z) (records : list (list string)) : bool :=
  is_int urlColumnIndex && is_slice records && forallb is_slice records.

(** Section 4.3, row numbering: the callback is called for the [n]-th
    record with row number [n], and every round that ends increments the
    row number, whatever it did with the row. *)
Definition row_numbers_contract {W E : Type} (os_Open : string -> option csv.Reader)
    (csvFile : string) (urlColumnIndex : Z) (f : @csv.Callback W E) (w : W)
    (data : csv.Reader) : Prop :=
  calls_made (csv.ProcessCSV os_Open csvFile urlColumnIndex (csv.logged f) ([], w))
  = expected_calls urlColumnIndex (csv.records_read data) /\
  (forall row result rowNum st result' rowNum' st',
     csv.processRow urlColumnIndex (csv.logged f) row result rowNum st
     = csv.Next result' rowNum' st' ->
     rowNum' = incr rowNum).

(** ** Statements about the rest of the code *)

(** A file has the structure [ValidateCSVStructure] asks for: it opens,
    its header can be read and has at least [expectedColumns] columns, and
    so has every record read before the reader first returns an error or
    reaches the end of the input. *)
Definition valid_structure (os_Open : string -> option csv.Reader)
    (filename : string) (expectedColumns : Z) : Prop :=
  exists header data,
    os_Open filename = Some (Some header :: data) /\
    expectedColumns <= len header /\
    Forall (fun row : list string => expectedColumns <= len row)
           (csv.records_read data).

(** What [csv.NewReader] delivers with the [FieldsPerRecord] it starts
    with, 0: the number of fields of the first record is the number every
    later record must have, and on a record with another number [Read]
    returns the error [ErrFieldCount].  So every record read without
    error after the header has as many fields as the header. *)
Definition fields_per_record (header : list string) (data : csv.Reader) : Prop :=
  Forall (fun r : option (list string) =>
            match r with
            | Some row => len row = len header
            | None => True
            end) data.



(** [marker] occurs in [s]. *)
Definition occurs_in (marker s : string) : Prop := exists a b, s = a ++ marker ++ b.

(** The markers of the [switch] on the content type, in its order, with
    the extensions they stand for. *)
Definition contentTypeTable : list (string * string) :=
  [("image/jpeg", ".jpg"); ("image/jpg", ".jpg"); ("image/png", ".png");
   ("image/gif", ".gif"); ("image/webp", ".webp"); ("image/bmp", ".bmp");
   ("image/tiff", ".tiff")].

(** The extension of the first marker of a table that the content type
    contains. *)
Fixpoint firstMatch (contentType : string) (table : list (string * string)) : string :=
  match table with
  | [] => ""
  | (marker, extension) :: table' =>
    if Contains contentType marker then extension else firstMatch contentType table'
  end.

(** The name of the file of a row: [image_<rowNum><extension>]. *)
Definition fileName (rowNum : Z) (extension : string) : string :=
  "image_" ++ itoa rowNum ++ extension.

(** The extension of the three tiers, as a function. *)
Definition resolve (goos : GOOS) (mapUnicodeLower : string -> string)
    (contentType url : string) : string :=
  match downloader.getExtensionFromContentType contentType,
        downloader.GetExtensionFromURL goos mapUnicodeLower url with
  | String c e, _ => String c e
  | EmptyString, String c e => String c e
  | EmptyString, EmptyString => ".jpg"
  end.


(** A URL handed to the callback comes from a cell of a data record, and
    is that cell trimmed, and is not empty. *)
Definition url_of_record (records : list (list string)) (url : string) : Prop :=
  url <> "" /\
  exists row cell, In row records /\ In cell row /\ url = TrimSpace cell.

(** A path is the file of a row in the directory of the command line. *)
Definition image_path (Join : string -> string -> string) (path : string) : Prop :=
  exists rowNum extension,
    In extension downloader.validExts /\
    path = Join cli.downloadsDir (fileName rowNum extension).

(** [t] is the beginning of [s]. *)
Definition prefix_of (t s : string) : Prop := exists rest, s = t ++ rest.

End Spec.

(** * Sample inputs *)

Module Samples.

(** [filepath.Join] on a clean relative directory and a file name, on
    Unix. *)
Definition join (dir name : string) : string := dir ++ "/" ++ name.

(** A server that answers every request with a PNG image. *)
Definition png_response : downloader.Response :=
  {| downloader.StatusCode := 200;
     downloader.ContentType := "image/png";
     downloader.Body := "PNG" |}.

Definition png_server : downloader.Downloader :=
  {| downloader.client := fun _ => Some png_response |}.

(** A server that answers every request with "404 Not Found". *)
Definition not_found : downloader.Response :=
  {| downloader.StatusCode := 404;
     downloader.ContentType := "text/plain";
     downloader.Body := "404 page not found" |}.

Definition missing_server : downloader.Downloader :=
  {| downloader.client := fun _ => Some not_found |}.

(** A CSV file with a header and one data record. *)
Definition one_row : csv.Reader :=
  [Some ["name"; "url"]; Some ["cat"; "https://example.com/cat.jpg"]].

(** A callback that succeeds and changes nothing. *)
Definition accept : @csv.Callback unit unit := fun _ _ w => (None, w).

(** A callback that fails on the URLs that are not valid. *)
Definition validate : @csv.Callback unit unit :=
  fun url _ w => if utils.IsValidURL url then (None, w) else (Some tt, w).

(** A header, three records, a record that cannot be read and one more
    record. *)
Definition broken_file : csv.Reader :=
  [Some ["name"; "url"];
   Some ["cat"; "https://example.com/cat.jpg"];
   Some ["dog"; "  "];
   Some ["owl"; "not a url"];
   None;
   Some ["fox"; "https://example.com/fox.png"]].

Definition zero : csv.ProcessResult :=
  {| csv.SuccessCount := 0; csv.ErrorCount := 0; csv.TotalRows := 0 |}.

(** The seven rows of the second scenario of section 8: rows 2 and 4 get
    an error status, row 5 has an invalid URL, row 6 an empty one. *)
Definition scenario_file : csv.Reader :=
  [Some ["id"; "url"];
   Some ["1"; "https://example.com/one"];
   Some ["2"; "https://example.com/two"];
   Some ["3"; "https://example.com/three.png"];
   Some ["4"; "https://example.com/four"];
   Some ["5"; "invalid-url"];
   Some ["6"; ""];
   Some ["7"; "  https://example.com/seven "]].

Definition respond (status : Z) (contentType : string) : option downloader.Response :=
  Some {| downloader.StatusCode := status;
          downloader.ContentType := contentType;
          downloader.Body := "data" |}.

Definition scenario_server : downloader.Downloader :=
  {| downloader.client := fun url =>
       if String.eqb url "https://example.com/one" then respond 200 "image/jpeg"
       else if String.eqb url "https://example.com/two" then respond 404 "text/plain"
       else if String.eqb url "https://example.com/three.png"
            then respond 200 "application/octet-stream"
       else if String.eqb url "https://example.com/four" then respond 500 "text/plain"
       else if String.eqb url "https://example.com/seven" then respond 200 "text/html"
       else None |}.

(** Where the PNG response to row 7 goes. *)
Definition png_target : string := "downloads/image_7.png".

(** A file system that already holds a file of that name. *)
Definition old_files : gmap string string :=
  <["downloads/image_7.png" := "old image, longer than the new one"]>
    (<["notes.txt" := "keep"]> ∅).

(** A copy that stops after two bytes at that file. *)
Definition stops_at_two (path : string) : option nat :=
  if String.eqb path png_target then Some 2%nat else None.

(** A server that does not answer where [scenario_server] answers
    nothing, and answers the same elsewhere. *)
Definition other_server : downloader.Downloader :=
  {| downloader.client := fun url =>
       if String.eqb url "invalid-url" then respond 200 "image/png"
       else downloader.client scenario_server url |}.

(** A file with a single column. *)
Definition narrow_file : csv.Reader :=
  [Some ["url"];
   Some ["https://example.com/cat.jpg"];
   Some ["https://example.com/dog.png"]].

End Samples.

(** * Properties *)

(** ** Arithmetic of [int] *)

Section GoIntFacts.

Import GoInt.

Lemma wrap_small (z : Z) : MinInt <= z <= MaxInt -> wrap z = z.
Proof.
  unfold wrap, MinInt, MaxInt. intros H.
  rewrite Z.mod_small; lia.
Qed.

Lemma wrap_range (z : Z) : MinInt <= wrap z <= MaxInt.
Proof.
  unfold wrap, MinInt, MaxInt.
  pose proof (Z.mod_pos_bound (z + 2 ^ 63) (2 ^ 64) ltac:(lia)). lia.
Qed.

Lemma wrap_add_l (a b : Z) : wrap (wrap a + b) = wrap (a + b).
Proof.
  unfold wrap.
  replace ((a + 2 ^ 63) mod 2 ^ 64 - 2 ^ 63 + b + 2 ^ 63)
    with ((a + 2 ^ 63) mod 2 ^ 64 + b) by lia.
  rewrite Zplus_mod_idemp_l. f_equal. f_equal. lia.
Qed.

Lemma wrap_add_r (a b : Z) : wrap (a + wrap b) = wrap (a + b).
Proof. rewrite (Z.add_comm a), wrap_add_l. f_equal. lia. Qed.

Lemma incr_wrap (a : Z) : incr (wrap a) = wrap (a + 1).
Proof. unfold incr, add. apply wrap_add_l. Qed.

Lemma is_int_spec (z : Z) : is_int z = true <-> MinInt <= z <= MaxInt.
Proof. unfold is_int. rewrite andb_true_iff, !Z.leb_le. tauto. Qed.

Lemma len_nonneg {A} (s : list A) : 0 <= len s.
Proof. unfold len. lia. Qed.

(** Within bounds the access [s[i]] is the [i]-th element. *)
Lemma index_Some {A} (s : list A) (i : Z) :
  0 <= i < len s -> exists x, index s i = Some x.
Proof.
  intros H. unfold index.
  destruct (i <? 0) eqn:E1; [apply Z.ltb_lt in E1; lia |].
  destruct (len s <=? i) eqn:E2; [apply Z.leb_le in E2; lia |].
  simpl. destruct (nth_error s (Z.to_nat i)) eqn:E3; [eauto |].
  apply nth_error_None in E3. unfold len in H. lia.
Qed.

Lemma index_None {A} (s : list A) (i : Z) :
  i < 0 \/ len s <= i -> index s i = None.
Proof.
  intros H. unfold index.
  destruct (i <? 0) eqn:E1; [reflexivity |].
  destruct (len s <=? i) eqn:E2; [reflexivity |].
  apply Z.ltb_ge in E1. apply Z.leb_gt in E2. lia.
Qed.

End GoIntFacts.

(** ** Strings *)

Section StringFacts.

Import strings utf8.

Lemma append_cons (c : ascii) (a b : string) : String c a ++ b = String c (a ++ b).
Proof. reflexivity. Qed.

Lemma append_nil (a : string) : "" ++ a = a.
Proof. reflexivity. Qed.

Lemma substring_all (s : string) : String.substring 0 (String.length s) s = s.
Proof. induction s as [| c s IH]; simpl; [reflexivity | now rewrite IH]. Qed.

(** [(p ++ r)[len(p):] = r] *)
Lemma from_app (p r : string) : from (p ++ r) (String.length p) = r.
Proof.
  unfold from, slice. induction p as [| c p IH]; simpl.
  - rewrite Nat.sub_0_r. apply substring_all.
  - exact IH.
Qed.

Lemma HasPrefix_app (p r : string) : HasPrefix (p ++ r) p = true.
Proof.
  induction p as [| c p IH]; simpl; [reflexivity |].
  now rewrite Ascii.eqb_refl, IH.
Qed.

(** [HasPrefix] is the prefix relation. *)
Lemma HasPrefix_spec (s p : string) :
  HasPrefix s p = true <-> exists r, s = p ++ r.
Proof.
  split.
  - revert s. induction p as [| c p IH]; intros s H.
    + exists s. reflexivity.
    + destruct s as [| c' s]; simpl in H; [discriminate |].
      apply andb_true_iff in H. destruct H as [Hc Hp].
      apply Ascii.eqb_eq in Hc. subst c'.
      destruct (IH s Hp) as [r ->]. exists r. reflexivity.
  - intros [r ->]. apply HasPrefix_app.
Qed.

Lemma len_pos_iff (s : string) : (0 <? len s) = true <-> s <> "".
Proof.
  unfold len. destruct s; simpl.
  - split; [discriminate | intros H; now elim H].
  - split; [discriminate | intros _; apply Z.ltb_lt; lia].
Qed.

(** [Contains] is the substring relation. *)
Lemma Contains_spec (s substr : string) :
  Contains s substr = true <-> exists a b, s = a ++ substr ++ b.
Proof.
  split.
  - induction s as [| c s IH]; cbn [Contains]; intros H;
      apply orb_true_iff in H as [H | H]; try discriminate.
    + apply HasPrefix_spec in H as [r Hr]. exists "", r. exact Hr.
    + apply HasPrefix_spec in H as [r Hr]. exists "", r. exact Hr.
    + destruct (IH H) as (a & b & ->). exists (String c a), b. reflexivity.
  - intros (a & b & ->). induction a as [| c a IH].
    + rewrite append_nil. destruct (substr ++ b) eqn:E; cbn [Contains];
        rewrite <- E, HasPrefix_app; reflexivity.
    + rewrite append_cons. cbn [Contains]. rewrite IH. apply orb_true_r.
Qed.

(** [Contains(s, " ")] finds the byte 0x20 and nothing else. *)
Lemma Contains_space (s : string) :
  Contains s " " = false <-> Spec.free_of Spec.is_space s.
Proof.
  unfold Spec.free_of, Spec.bytes, Spec.is_space.
  induction s as [| c s IH]; simpl.
  - split; [intros _ c [] | reflexivity].
  - rewrite orb_false_iff, andb_true_r, IH. split.
    + intros [Hc Hs] c' [<- | Hin]; [exact Hc | now apply Hs].
    + intros H. split; [apply H; now left | intros c' Hin; apply H; now right].
Qed.

End StringFacts.

(** ** The URL validator *)

Section Validator.

Import strings utils.

Lemma hasValidScheme_false (t : string) :
  hasValidScheme t validSchemes = false ->
  forall scheme, In scheme validSchemes -> HasPrefix t scheme = false.
Proof.
  unfold validSchemes. cbn [hasValidScheme In]. intros H scheme Hin.
  destruct (HasPrefix t "http://") eqn:E1; [discriminate |].
  destruct (HasPrefix t "https://") eqn:E2; [discriminate |].
  destruct (HasPrefix t "ftp://") eqn:E3; [discriminate |].
  destruct (HasPrefix t "file://") eqn:E4; [discriminate |].
  destruct Hin as [<- | [<- | [<- | [<- | []]]]]; assumption.
Qed.

(** What [IsValidURL] computes once the trimmed string is known to be
    [scheme ++ rest] for one of the three network schemes. *)
Lemma IsValidURL_otherScheme (s scheme rest : string) :
  In scheme Spec.otherSchemes -> TrimSpace s = scheme ++ rest ->
  IsValidURL s = (0 <? len rest) && negb (Contains rest " ").
Proof.
  intros Hin Ht. unfold IsValidURL. rewrite Ht.
  unfold Spec.otherSchemes in Hin. simpl in Hin.
  destruct Hin as [<- | [<- | [<- | []]]];
    match goal with
    | |- context [?scheme ++ rest] =>
      pose proof (from_app scheme rest) as Hf; cbn [String.length] in Hf
    end;
    cbn -[utf8.from len Contains]; rewrite Hf; reflexivity.
Qed.

End Validator.

Section ValidatorContract.

Import strings utils.

Lemma hasValidScheme_true (t : string) :
  hasValidScheme t validSchemes = true ->
  exists scheme rest, In scheme validSchemes /\ t = scheme ++ rest.
Proof.
  unfold validSchemes. cbn [hasValidScheme In]. intros H.
  destruct (HasPrefix t "http://") eqn:E1;
    [apply HasPrefix_spec in E1 as [r ->]; eauto 8 |].
  destruct (HasPrefix t "https://") eqn:E2;
    [apply HasPrefix_spec in E2 as [r ->]; eauto 8 |].
  destruct (HasPrefix t "ftp://") eqn:E3;
    [apply HasPrefix_spec in E3 as [r ->]; eauto 8 |].
  destruct (HasPrefix t "file://") eqn:E4;
    [apply HasPrefix_spec in E4 as [r ->]; eauto 8 | discriminate].
Qed.

(** C2 (as amended): [IsValidURL] trims its argument; it answers false
    on an empty trimmed string and on one that begins with none of the
    four schemes; on [file://...] it answers true iff the trimmed string
    is longer than 7 bytes; on the three other schemes it answers true
    iff the remainder after the scheme is non-empty and holds no space
    character U+0020 (other whitespace characters are not looked for). *)
Theorem IsValidURL_contract_space (s : string) :
  Spec.IsValidURL_contract Spec.is_space s.
Proof.
  unfold Spec.IsValidURL_contract. cbv zeta.
  split; [| split; [| split]].
  - intros Ht. unfold IsValidURL. now rewrite Ht.
  - intros Hnone. unfold IsValidURL.
    destruct (String.eqb (TrimSpace s) ""); [reflexivity |].
    destruct (hasValidScheme (TrimSpace s) validSchemes) eqn:Hs; [| reflexivity].
    apply hasValidScheme_true in Hs as (scheme & rest & Hin & Heq).
    now elim (Hnone scheme rest Hin).
  - intros rest Ht. unfold IsValidURL. rewrite Ht. cbn -[len Z.ltb].
    apply Z.ltb_lt.
  - intros scheme rest Hin Ht.
    rewrite (IsValidURL_otherScheme s scheme rest Hin Ht).
    rewrite andb_true_iff, negb_true_iff, len_pos_iff, Contains_space.
    reflexivity.
Qed.

(** The contract of C2 at a URL with blanks around it. *)
Lemma IsValidURL_contract_space_witness :
  Spec.IsValidURL_contract Spec.is_space "  https://example.com/a.jpg  ".
Proof. apply IsValidURL_contract_space. Defined.

(** C2 as the specification words it fails: a tab inside the remainder
    is a whitespace character, and the URL is accepted. *)
Lemma IsValidURL_accepts_tab :
  ~ Spec.IsValidURL_contract Spec.is_whitespace
      ("http://a" ++ String "009" "b").
Proof.
  intros (_ & _ & _ & H).
  specialize (H "http://" ("a" ++ String "009" "b")).
  destruct H as [H _]; [left; reflexivity | reflexivity |].
  destruct (H eq_refl) as [_ Hfree].
  specialize (Hfree "009"%char). simpl in Hfree.
  discriminate Hfree. right; left; reflexivity.
Qed.

(** The accepted and the rejected URLs of section 8 of the
    specification and of [TestIsValidURL]. *)
Example IsValidURL_examples :
  map IsValidURL
      [""; "   "; "invalid-url"; "https://"; "http://"; "file://";
       "https://example.com/a.jpg"; "  https://example.com/a.jpg  ";
       "file:///a/b.png"; "ftp://example.com/image.gif"; "http://a b"]
  = [false; false; false; false; false; false;
     true; true; true; true; false].
Proof. vm_compute. reflexivity. Qed.

End ValidatorContract.

(** ** [filepath.Ext] *)

Section ExtFacts.

Import filepath utf8.

Variable goos : GOOS.

Lemma append_assoc (a b c : string) : (a ++ b) ++ c = a ++ (b ++ c).
Proof.
  induction a as [| x a IH]; [reflexivity |].
  now rewrite !append_cons, IH.
Qed.

Lemma length_append (a b : string) :
  String.length (a ++ b) = (String.length a + String.length b)%nat.
Proof.
  induction a as [| x a IH]; [reflexivity |].
  rewrite append_cons. cbn [String.length]. now rewrite IH.
Qed.

Lemma get_append (q : string) (c : ascii) (t : string) :
  String.get (String.length q) (q ++ String c t) = Some c.
Proof.
  induction q as [| x q IH]; [reflexivity |].
  rewrite append_cons. cbn [String.length String.get]. exact IH.
Qed.

Lemma bytes_append (a b : string) :
  Spec.bytes (a ++ b) = (Spec.bytes a ++ Spec.bytes b)%list.
Proof.
  unfold Spec.bytes. induction a as [| x a IH]; [reflexivity |].
  rewrite append_cons. cbn [list_ascii_of_string]. now rewrite IH.
Qed.

(** A non-empty string has a last byte. *)
Lemma string_snoc (n : nat) (q : string) :
  String.length q = S n ->
  exists q' c, q = q' ++ String c "" /\ String.length q' = n.
Proof.
  revert q. induction n as [| n IH]; intros q Hq.
  - destruct q as [| c [| d q]]; try discriminate.
    exists "", c. split; reflexivity.
  - destruct q as [| c q]; [discriminate |].
    injection Hq as Hq. destruct (IH q Hq) as (q' & d & -> & Hl).
    exists (String c q'), d. split; [reflexivity | simpl; now rewrite Hl].
Qed.

Lemma free_of_cons (blank : ascii -> bool) (c : ascii) (t : string) :
  blank c = false -> Spec.free_of blank t -> Spec.free_of blank (String c t).
Proof. intros Hc Ht x [<- | Hin]; [exact Hc | now apply Ht]. Qed.

Lemma free_of_tail (blank : ascii -> bool) (c : ascii) (t : string) :
  Spec.free_of blank (String c t) -> blank c = false /\ Spec.free_of blank t.
Proof.
  intros H. split; [apply H; now left | intros x Hx; apply H; now right].
Qed.

(** The dot is no path separator. *)
Lemma dot_not_separator (c : ascii) :
  Ascii.eqb c "." = true -> IsPathSeparator goos c = false.
Proof.
  intros H. apply Ascii.eqb_eq in H. subst c. destruct goos; reflexivity.
Qed.

(** The loop runs through a tail without dot and separator. *)
Lemma Ext_loop_skip (t q : string) :
  Spec.free_of (fun c => Ascii.eqb c ".") t ->
  Spec.free_of (IsPathSeparator goos) t ->
  Ext_loop goos (q ++ t) (String.length (q ++ t))
  = Ext_loop goos (q ++ t) (String.length q).
Proof.
  revert q. induction t as [| c t IH]; intros q Hdot Hsep.
  - replace (q ++ "") with q; [reflexivity |].
    clear. induction q as [| x q IH]; [reflexivity |].
    now rewrite append_cons, <- IH.
  - apply free_of_tail in Hdot as [Hc1 Hdot].
    apply free_of_tail in Hsep as [Hc2 Hsep].
    replace (q ++ String c t) with ((q ++ String c "") ++ t)
      by (rewrite append_assoc; reflexivity).
    rewrite (IH (q ++ String c "") Hdot Hsep).
    rewrite length_append, Nat.add_comm. cbn [String.length Nat.add Ext_loop].
    rewrite append_assoc, append_cons, append_nil.
    now rewrite get_append, Hc2, Hc1.
Qed.

(** [Ext] of a path that ends in a dot and a tail without dot and
    separator is that dot and that tail. *)
Lemma Ext_app_dot (p r : string) :
  Spec.free_of (fun c => Ascii.eqb c ".") r ->
  Spec.free_of (IsPathSeparator goos) r ->
  Ext goos (p ++ "." ++ r) = "." ++ r.
Proof.
  intros Hdot Hsep. unfold Ext.
  replace (p ++ "." ++ r) with ((p ++ ".") ++ r)
    by (rewrite append_assoc; reflexivity).
  rewrite (Ext_loop_skip r (p ++ ".") Hdot Hsep).
  rewrite length_append, Nat.add_comm. cbn [String.length Nat.add Ext_loop].
  rewrite append_assoc.
  change ("." ++ r) with (String "." r).
  rewrite get_append, (dot_not_separator "." eq_refl).
  change (Ascii.eqb "." ".") with true. cbv iota.
  apply (from_app p (String "." r)).
Qed.

End ExtFacts.

Section ExtSpec.

Import filepath utf8.

Variable goos : GOOS.

Lemma dot_in_bytes (p r : string) : In "."%char (Spec.bytes (p ++ "." ++ r)).
Proof.
  rewrite bytes_append. apply in_or_app. right. left. reflexivity.
Qed.

(** When [q ++ c :: t] is cut at a dot, and the dot is neither [c] nor
    in [t], the byte [c] comes after the dot. *)
Lemma byte_after_dot (q t p r : string) (c : ascii) :
  q ++ String c t = p ++ "." ++ r ->
  Ascii.eqb c "." = false ->
  Spec.free_of (fun c => Ascii.eqb c ".") t ->
  In c (Spec.bytes r).
Proof.
  intros Heq Hc Hdot.
  apply (f_equal Spec.bytes) in Heq. rewrite !bytes_append in Heq.
  change (Spec.bytes (String c t)) with (c :: Spec.bytes t) in Heq.
  change (Spec.bytes ("." ++ r)) with ("."%char :: Spec.bytes r) in Heq.
  apply List.app_eq_app in Heq as [l [[H1 H2] | [H1 H2]]].
  - destruct l as [| d l]; injection H2 as H2 H3.
    + subst c. discriminate Hc.
    + rewrite H3. apply in_or_app. right. now left.
  - destruct l as [| d l]; injection H2 as H2 H3.
    + subst c. discriminate Hc.
    + exfalso. assert (Hin : In "."%char (Spec.bytes t)).
      { rewrite H3. apply in_or_app. right. now left. }
      apply Hdot in Hin. discriminate Hin.
Qed.

Lemma Ext_loop_extension_of (n : nat) : forall q t : string,
  String.length q = n ->
  Spec.free_of (fun c => Ascii.eqb c ".") t ->
  Spec.free_of (IsPathSeparator goos) t ->
  Spec.extension_of goos (q ++ t) (Ext_loop goos (q ++ t) n).
Proof.
  induction n as [| n IH]; intros q t Hq Hdot Hsep.
  - right. split; [reflexivity |].
    destruct q; [| discriminate]. rewrite append_nil.
    intros p r Heq _. pose proof (dot_in_bytes p r) as Hin.
    rewrite <- Heq in Hin. apply Hdot in Hin. discriminate Hin.
  - destruct (string_snoc n q Hq) as (q' & c & -> & Hq').
    rewrite append_assoc, append_cons, append_nil.
    cbn [Ext_loop].
    replace (String.get n (q' ++ String c t)) with (Some c)
      by (rewrite <- Hq'; symmetry; apply get_append).
    destruct (IsPathSeparator goos c) eqn:Hc2.
    + right. split; [reflexivity |].
      intros p r Heq Hfree.
      assert (Hc1 : Ascii.eqb c "." = false).
      { destruct (Ascii.eqb c ".") eqn:E; [| reflexivity].
        rewrite (dot_not_separator goos c E) in Hc2. discriminate Hc2. }
      pose proof (byte_after_dot q' t p r c Heq Hc1 Hdot) as Hin.
      apply Hfree in Hin. rewrite Hin in Hc2. discriminate Hc2.
    + destruct (Ascii.eqb c ".") eqn:Hc1.
      * apply Ascii.eqb_eq in Hc1. subst c. left. exists q', t.
        replace (from (q' ++ String "." t) n) with (String "." t)
          by (rewrite <- Hq'; symmetry; apply from_app).
        repeat split; assumption.
      * apply IH; [exact Hq' | now apply free_of_cons | now apply free_of_cons].
Qed.

(** [filepath.Ext] returns the extension after the last dot of the final
    path-like segment. *)
Lemma Ext_extension_of (url : string) : Spec.extension_of goos url (Ext goos url).
Proof.
  unfold Ext.
  assert (Hnil : url ++ "" = url).
  { induction url as [| x u IHu]; [reflexivity |]. now rewrite append_cons, IHu. }
  rewrite <- Hnil at 1 2.
  apply Ext_loop_extension_of; [reflexivity | intros c [] | intros c []].
Qed.

End ExtSpec.

(** ** [strings.TrimSpace] on ASCII strings *)

Section TrimFacts.

Import strings utf8.

Lemma whitespace_is_ascii (c : ascii) :
  asciiSpace (byte c) = true -> (RuneSelf <=? byte c) = false.
Proof.
  unfold asciiSpace, RuneSelf. intros H. apply Z.leb_gt.
  repeat (apply orb_true_iff in H as [H | H]); apply Z.eqb_eq in H; lia.
Qed.

Lemma at_append (q : string) (c : ascii) (t : string) :
  at_ (q ++ String c t) (String.length q) = byte c.
Proof. unfold at_. now rewrite get_append. Qed.

Lemma slice_prefix (p r : string) : slice (p ++ r) 0 (String.length p) = p.
Proof.
  unfold slice. rewrite Nat.sub_0_r.
  induction p as [| c p IH]; [destruct r; reflexivity |].
  rewrite append_cons. cbn [String.length String.substring]. now rewrite IH.
Qed.

Lemma append_empty (s : string) : s ++ "" = s.
Proof.
  induction s as [| c s IH]; [reflexivity |]. now rewrite append_cons, IH.
Qed.

(** The second loop of [TrimSpace] runs through a tail of whitespace. *)
Lemma TrimSpace_stop_skip (r p : string) :
  Spec.all_whitespace r ->
  TrimSpace_stop (p ++ r) (String.length (p ++ r))
  = TrimSpace_stop (p ++ r) (String.length p).
Proof.
  revert p. induction r as [| c r IH]; intros p Hr.
  - now rewrite append_empty.
  - assert (Hc : asciiSpace (byte c) = true) by (apply Hr; now left).
    assert (Hr' : Spec.all_whitespace r) by (intros x Hx; apply Hr; now right).
    replace (p ++ String c r) with ((p ++ String c "") ++ r)
      by (rewrite append_assoc; reflexivity).
    rewrite (IH (p ++ String c "") Hr').
    rewrite length_append, Nat.add_comm. cbn [String.length Nat.add TrimSpace_stop].
    rewrite append_assoc, append_cons, append_nil, at_append.
    now rewrite (whitespace_is_ascii c Hc), Hc.
Qed.

(** It stops at an ASCII byte that is no whitespace. *)
Lemma TrimSpace_stop_at (q : string) (d : ascii) (r : string) :
  (RuneSelf <=? byte d) = false -> asciiSpace (byte d) = false ->
  Spec.all_whitespace r ->
  TrimSpace_stop ((q ++ String d "") ++ r) (String.length ((q ++ String d "") ++ r))
  = q ++ String d "".
Proof.
  intros Hd1 Hd2 Hr. rewrite (TrimSpace_stop_skip r (q ++ String d "") Hr).
  rewrite length_append, Nat.add_comm. cbn [String.length Nat.add TrimSpace_stop].
  replace (at_ ((q ++ String d "") ++ r) (String.length q)) with (byte d)
    by (rewrite append_assoc, append_cons, append_nil; symmetry; apply at_append).
  rewrite Hd1, Hd2. cbn [negb].
  replace (S (String.length q)) with (String.length (q ++ String d ""))
    by (rewrite length_append; cbn [String.length]; lia).
  apply slice_prefix.
Qed.

(** Every string is a part that is empty or ends in a byte that is no
    whitespace, followed by whitespace. *)
Lemma whitespace_tail (s : string) :
  exists p r, s = p ++ r /\ Spec.all_whitespace r /\
    (p = "" \/ exists q d, p = q ++ String d "" /\ asciiSpace (byte d) = false).
Proof.
  induction s as [| c s (p & r & -> & Hr & Hp)].
  - exists "", "". split; [reflexivity |]. split; [intros c [] | now left].
  - destruct Hp as [-> | (q & d & -> & Hd)].
    + destruct (asciiSpace (byte c)) eqn:Hc.
      * exists "", (String c r). split; [reflexivity |]. split; [| now left].
        intros x [<- | Hx]; [exact Hc | now apply Hr].
      * exists (String c ""), r. split; [reflexivity |]. split; [exact Hr |].
        right. exists "", c. split; [reflexivity | exact Hc].
    + exists (String c (q ++ String d "")), r. split; [reflexivity |].
      split; [exact Hr |]. right. exists (String c q), d.
      split; [reflexivity | exact Hd].
Qed.

Lemma isASCII_in (s : string) (c : ascii) :
  isASCII s = true -> In c (Spec.bytes s) -> (RuneSelf <=? byte c) = false.
Proof.
  induction s as [| x s IH]; [intros _ [] |].
  cbn [isASCII]. intros H [<- | Hin]; apply andb_true_iff in H as [H1 H2].
  - apply Z.leb_gt. now apply Z.ltb_lt.
  - now apply IH.
Qed.

Lemma last_byte_eq (u v : string) (c d : ascii) :
  u ++ String c "" = v ++ String d "" -> c = d.
Proof.
  revert v. induction u as [| x u IH]; intros v H.
  - destruct v as [| y [| z v]];
      rewrite ?append_cons, ?append_nil in H; [congruence | | ]; discriminate H.
  - destruct v as [| y v]; rewrite ?append_cons, ?append_nil in H.
    + injection H as _ H. destruct u; discriminate H.
    + injection H as _ H. now apply (IH v).
Qed.

(** On an ASCII string [TrimSpace] removes the leading and the trailing
    whitespace, and nothing else. *)
Lemma TrimSpace_trims (s : string) :
  isASCII s = true -> Spec.trimmed_of s (TrimSpace s).
Proof.
  induction s as [| c s IH]; intros Hs.
  - exists "", "". split; [reflexivity |].
    split; [intros b [] |]. split; [intros b [] |]. split.
    + intros b u H; discriminate H.
    + intros u b H; destruct u; discriminate H.
  - pose proof Hs as Hs0. cbn [isASCII] in Hs. apply andb_true_iff in Hs as [Hc Hs].
    cbn [TrimSpace].
    replace (RuneSelf <=? byte c) with false
      by (symmetry; apply Z.leb_gt; now apply Z.ltb_lt).
    destruct (asciiSpace (byte c)) eqn:Hsp; cbn [negb].
    + destruct (IH Hs) as (l & r & Heq & Hl & Hr & Hfirst & Hlast).
      exists (String c l), r. rewrite append_cons, <- Heq.
      repeat split; try assumption.
      intros x [<- | Hx]; [exact Hsp | now apply Hl].
    + destruct (whitespace_tail (String c s)) as (p & r & Heq & Hr & Hp).
      destruct Hp as [-> | (q & d & -> & Hd)].
      * exfalso. rewrite append_nil in Heq. subst r.
        assert (H : Spec.is_whitespace c = true) by (apply Hr; now left).
        unfold Spec.is_whitespace in H. unfold asciiSpace in Hsp. congruence.
      * assert (Hd1 : (RuneSelf <=? byte d) = false).
        { apply (isASCII_in (String c s) d Hs0).
          rewrite Heq, !bytes_append. apply in_or_app. left.
          apply in_or_app. right. now left. }
        rewrite Heq, (TrimSpace_stop_at q d r Hd1 Hd Hr).
        exists "", r. rewrite append_nil.
        split; [reflexivity |]. split; [intros b [] |]. split; [exact Hr |]. split.
        -- intros x u Hx. destruct q as [| y q].
           ++ cbn in Hx. injection Hx as <- _. exact Hd.
           ++ rewrite append_cons in Hx. injection Hx as <- _.
              rewrite !append_cons in Heq. injection Heq as <- _. exact Hsp.
        -- intros u x Hx. apply last_byte_eq in Hx. subst x. exact Hd.
Qed.

(** A string of whitespace trims to the empty string. *)
Lemma TrimSpace_whitespace (s : string) :
  Spec.all_whitespace s -> TrimSpace s = "".
Proof.
  induction s as [| c s IH]; intros Hs; [reflexivity |].
  assert (Hc : asciiSpace (byte c) = true) by (apply Hs; now left).
  cbn [TrimSpace]. rewrite (whitespace_is_ascii c Hc), Hc. cbn [negb].
  apply IH. intros x Hx. apply Hs. now right.
Qed.

End TrimFacts.

(** A string of whitespace is no valid URL. *)
Lemma IsValidURL_whitespace (s : string) :
  Spec.all_whitespace s -> utils.IsValidURL s = false.
Proof.
  intros Hs. unfold utils.IsValidURL. now rewrite (TrimSpace_whitespace s Hs).
Qed.

(** ** The extension resolver *)

Section Resolver.

Import strings filepath downloader.

Variable goos : GOOS.
Variable mapUnicodeLower : string -> string.

(** The loop over [validExts] returns its argument when it is in the
    list, and the empty string otherwise. *)
Lemma matchValidExt_spec (ext : string) (exts : list string) :
  (In ext exts /\ matchValidExt ext exts = ext) \/
  (~ In ext exts /\ matchValidExt ext exts = "").
Proof.
  induction exts as [| v exts IH]; simpl.
  - right. split; [tauto | reflexivity].
  - destruct (String.eqb_spec ext v) as [-> | Hne].
    + left. split; [now left | reflexivity].
    + destruct IH as [[Hin Heq] | [Hnin Heq]].
      * left. split; [now right | exact Heq].
      * right. split; [| exact Heq]. intros [Hv | Hin]; [now elim Hne | tauto].
Qed.

Lemma Ext_JPG (p : string) : Ext goos (p ++ ".JPG") = ".JPG".
Proof.
  apply (Ext_app_dot goos p "JPG").
  - intros c Hin. simpl in Hin.
    destruct Hin as [<- | [<- | [<- | []]]]; reflexivity.
  - intros c Hin. simpl in Hin.
    destruct Hin as [<- | [<- | [<- | []]]]; destruct goos; reflexivity.
Qed.

(** Lower-casing a byte neither makes nor removes a dot or a path
    separator. *)
Lemma lowerByte_punctuation (c : ascii) :
  Ascii.eqb (lowerByte c) "." = Ascii.eqb c "." /\
  IsPathSeparator goos (lowerByte c) = IsPathSeparator goos c.
Proof.
  destruct c as [[] [] [] [] [] [] [] []]; destruct goos; split; reflexivity.
Qed.

Lemma free_of_lowerASCII (blank : ascii -> bool) (r : string) :
  (forall c, blank (lowerByte c) = blank c) ->
  Spec.free_of blank (lowerASCII r) -> Spec.free_of blank r.
Proof.
  intros Hblank. induction r as [| c r IH]; intros Hfree x Hx; [destruct Hx |].
  cbn [lowerASCII] in Hfree. apply free_of_tail in Hfree as [Hc Hr].
  destruct Hx as [<- | Hx]; [now rewrite <- Hblank | now apply IH].
Qed.

(** The tail after the last dot of a string is determined by the string. *)
Lemma last_dot_unique (p : string) :
  forall p' r r',
    Spec.free_of (fun c => Ascii.eqb c ".") r ->
    Spec.free_of (fun c => Ascii.eqb c ".") r' ->
    p ++ "." ++ r = p' ++ "." ++ r' -> r = r'.
Proof.
  induction p as [| c p IH]; intros [| c' p'] r r' Hr Hr' Heq.
  - now injection Heq.
  - exfalso. rewrite append_nil, (append_cons c' p') in Heq.
    injection Heq as _ Heq.
    pose proof (dot_in_bytes p' r') as Hin. rewrite <- Heq in Hin.
    apply Hr in Hin. discriminate Hin.
  - exfalso. rewrite append_nil, (append_cons c p) in Heq.
    injection Heq as _ Heq.
    pose proof (dot_in_bytes p r) as Hin. rewrite Heq in Hin.
    apply Hr' in Hin. discriminate Hin.
  - rewrite !append_cons in Heq. injection Heq as _ Heq.
    now apply (IH p' r r').
Qed.

(** A URL has one extension only. *)
Lemma extension_of_unique (url e e' : string) :
  Spec.extension_of goos url e -> Spec.extension_of goos url e' -> e = e'.
Proof.
  intros [(p & r & Hu & -> & Hdot & Hsep) | [-> Hnone]]
         [(p' & r' & Hu' & -> & Hdot' & Hsep') | [-> Hnone']].
  - f_equal. apply (last_dot_unique p p' r r' Hdot Hdot'). now rewrite <- Hu.
  - now elim (Hnone' p r Hu).
  - now elim (Hnone p' r' Hu').
  - reflexivity.
Qed.

(** A tail whose lower-casing makes an allowed extension holds neither a
    dot nor a path separator. *)
Lemma allowed_tail_free (r v : string) :
  In v validExts -> lowerASCII ("." ++ r) = v ->
  Spec.free_of (fun c => Ascii.eqb c ".") r /\ Spec.free_of (IsPathSeparator goos) r.
Proof.
  intros Hv Hlow. rewrite append_cons, append_nil in Hlow. cbn [lowerASCII] in Hlow.
  assert (Hfree : Spec.free_of (fun c => Ascii.eqb c ".") (lowerASCII r) /\
                  Spec.free_of (IsPathSeparator goos) (lowerASCII r)).
  { unfold validExts in Hv. cbn [In] in Hv.
    repeat (destruct Hv as [<- | Hv]; [
      injection Hlow as ->; split; intros c Hc; cbn in Hc;
      repeat (destruct Hc as [<- | Hc]; [destruct goos; reflexivity |]);
      destruct Hc |]).
    destruct Hv. }
  destruct Hfree as [Hdot Hsep]. split.
  - apply free_of_lowerASCII; [| exact Hdot].
    intros c. apply (lowerByte_punctuation c).
  - apply free_of_lowerASCII; [| exact Hsep].
    intros c. apply (lowerByte_punctuation c).
Qed.

(** A URL that ends in an allowed extension, in whatever case of its
    letters, yields that extension. *)
Lemma GetExtensionFromURL_allowed (p r v : string) :
  In v validExts -> isASCII r = true -> lowerASCII ("." ++ r) = v ->
  GetExtensionFromURL goos mapUnicodeLower (p ++ "." ++ r) = v.
Proof.
  intros Hv Hascii Hlow.
  destruct (allowed_tail_free r v Hv Hlow) as [Hdot Hsep].
  unfold GetExtensionFromURL. rewrite (Ext_app_dot goos p r Hdot Hsep).
  rewrite append_cons, append_nil. cbn [String.eqb negb].
  assert (Ha : isASCII (String "." r) = true)
    by (cbn [isASCII]; rewrite Hascii; reflexivity).
  unfold ToLower. rewrite Ha.
  rewrite append_cons, append_nil in Hlow. rewrite Hlow.
  destruct (matchValidExt_spec v validExts) as [[_ Heq] | [Hn _]];
    [exact Heq | now elim Hn].
Qed.

(** C9: [GetExtensionFromURL] returns the lower-casing of the extension
    after the last dot of the final path-like segment of the URL when
    that is one of [.jpg], [.jpeg], [.png], [.gif], [.webp], [.bmp],
    [.tiff], [.tif], and the empty string otherwise, so on a URL without
    dot or with an unknown suffix; the match ignores the case of the
    letters: a URL that ends in an allowed extension written in any case
    yields that extension in lower case, as [.JPG] yields [.jpg]. *)
Theorem GetExtensionFromURL_spec (url : string) :
  Spec.GetExtensionFromURL_contract goos mapUnicodeLower url.
Proof.
  unfold Spec.GetExtensionFromURL_contract. cbv zeta.
  exists (Ext goos url).
  pose proof (Ext_extension_of goos url) as Hext.
  split; [exact Hext |].
  split; [intros e' He'; exact (extension_of_unique url e' _ He' Hext) |].
  assert (Htail : forall p r v, In v validExts -> isASCII r = true ->
            lowerASCII ("." ++ r) = v ->
            GetExtensionFromURL goos mapUnicodeLower (p ++ "." ++ r) = v)
    by exact GetExtensionFromURL_allowed.
  assert (HJPG : forall p,
            GetExtensionFromURL goos mapUnicodeLower (p ++ ".JPG") = ".jpg").
  { intros p. apply (Htail p "JPG" ".jpg"); [now left | reflexivity | reflexivity]. }
  unfold GetExtensionFromURL at 1 2 3 4 5 6.
  destruct (String.eqb_spec (Ext goos url) "") as [He | He]; cbn [negb].
  - rewrite He.
    assert (Hnot : ~ In (ToLower mapUnicodeLower "") validExts).
    { unfold ToLower. cbn [isASCII lowerASCII]. unfold validExts. cbn [In].
      intros H. repeat (destruct H as [H | H]; [discriminate H |]). exact H. }
    split; [intros Hin; now elim Hnot |].
    repeat split; auto.
  - destruct (matchValidExt_spec (ToLower mapUnicodeLower (Ext goos url)) validExts)
      as [[Hin Heq] | [Hnin Heq]]; rewrite Heq.
    + split; [reflexivity |].
      split; [intros Hn; now elim Hn |].
      split; [right; split; [reflexivity | exact Hin] |].
      split; [| split; [exact Htail | exact HJPG]].
      intros Hfree. exfalso.
      destruct Hext as [(p & r & Hu & _) | [Hn _]]; [| now elim He].
      pose proof (dot_in_bytes p r) as Hd. rewrite <- Hu in Hd.
      apply Hfree in Hd. discriminate Hd.
    + split; [intros Hin; now elim Hnin |].
      repeat split; auto.
Qed.

End Resolver.

(** The contract of C9 on Linux at a URL in capitals. *)
Lemma GetExtensionFromURL_spec_witness :
  Spec.GetExtensionFromURL_contract filepath.linux (fun s => s)
    "https://example.com/image.JPG".
Proof. apply GetExtensionFromURL_spec. Defined.

(** The cases of [TestGetExtensionFromContentType], and a header value
    with parameters. *)
Example getExtensionFromContentType_examples :
  map downloader.getExtensionFromContentType
      ["image/jpeg"; "image/jpg"; "image/png"; "image/gif"; "image/webp";
       "image/bmp"; "image/tiff"; "text/html"; "application/json"; "";
       "image/png; charset=binary"]
  = [".jpg"; ".jpg"; ".png"; ".gif"; ".webp"; ".bmp"; ".tiff"; ""; ""; ""; ".png"].
Proof. vm_compute. reflexivity. Qed.

(** The cases of [TestGetExtensionFromURL]. *)
Example GetExtensionFromURL_examples :
  map (downloader.GetExtensionFromURL filepath.linux (fun s => s))
      ["https://example.com/image.jpg"; "https://example.com/image.jpeg";
       "https://example.com/image.tif"; "https://example.com/image.JPG";
       "https://example.com/image.PNG"; "https://example.com/image";
       "https://example.com/image.txt"; "https://example.com/";
       "https://example.com/path/to/image.png"]
  = [".jpg"; ".jpeg"; ".tif"; ".jpg"; ".png"; ""; ""; ""; ".png"].
Proof. vm_compute. reflexivity. Qed.

(** ** The fetcher *)

Section FetcherFacts.

Import strings filepath downloader.

Variable goos : GOOS.
Variable mapUnicodeLower : string -> string.
Variable Join : string -> string -> string.
Variable creatable : string -> bool.
Variable copyStops : string -> option nat.

(** C1: on every response with status OK, [DownloadImage] names the file
    after the extension the content type yields when it yields one,
    else after the extension the URL yields when it yields one, else
    after [.jpg]; a content type that maps to [.png] gives [.png]
    whatever the URL ends in, and two empty answers give [.jpg]. *)
Theorem DownloadImage_extension (d : Downloader) (fs : gmap string string)
    (url downloadDir : string) (rowNum : Z) (resp : Response) :
  client d url = Some resp ->
  StatusCode resp = StatusOK ->
  Spec.DownloadImage_contract goos mapUnicodeLower Join creatable copyStops
                              d fs url downloadDir rowNum resp.
Proof.
  intros Hget Hok. unfold Spec.DownloadImage_contract. cbv zeta.
  unfold DownloadImage. rewrite Hget, Hok. cbn [Z.eqb StatusOK negb Pos.eqb].
  destruct (String.eqb_spec (getExtensionFromContentType (ContentType resp)) "")
    as [Hct | Hct].
  - destruct (String.eqb_spec (GetExtensionFromURL goos mapUnicodeLower url) "")
      as [Hu | Hu].
    + exists ".jpg". split; [right; right; auto |].
      split; [reflexivity |]. split; [| reflexivity].
      intros Hpng. rewrite Hpng in Hct. discriminate Hct.
    + exists (GetExtensionFromURL goos mapUnicodeLower url).
      split; [right; left; auto |].
      split; [reflexivity |]. split.
      * intros Hpng. rewrite Hpng in Hct. discriminate Hct.
      * intros _ He. now elim Hu.
  - exists (getExtensionFromContentType (ContentType resp)).
    split; [left; auto |]. split; [reflexivity |]. split.
    + intros Hpng. exact Hpng.
    + intros He. now elim Hct.
Qed.

(** C8: when the response has a status other than OK, and when the
    request fails before any response, [DownloadImage] returns an error
    and leaves the file system as it was. *)
Theorem DownloadImage_failure (d : Downloader) (fs : gmap string string)
    (url downloadDir : string) (rowNum : Z) :
  (client d url = None ->
   DownloadImage goos mapUnicodeLower Join creatable copyStops
                 d fs url downloadDir rowNum
   = (fs, Some HTTPRequestFailed)) /\
  (forall resp, client d url = Some resp -> StatusCode resp <> StatusOK ->
   DownloadImage goos mapUnicodeLower Join creatable copyStops
                 d fs url downloadDir rowNum
   = (fs, Some (HTTPStatus (StatusCode resp)))).
Proof.
  unfold DownloadImage. split.
  - intros ->. reflexivity.
  - intros resp -> Hne.
    destruct (Z.eqb_spec (StatusCode resp) StatusOK) as [Heq | _];
      [now elim Hne | reflexivity].
Qed.

End FetcherFacts.

(** C1 at a PNG response to a URL that ends in [.jpg]: the header wins. *)
Lemma DownloadImage_extension_witness :
  Spec.DownloadImage_contract filepath.linux (fun s => s) Samples.join
    (fun _ => true) (fun _ => None) Samples.png_server ∅
    "https://example.com/photo.jpg" "downloads" 7 Samples.png_response.
Proof. apply DownloadImage_extension; reflexivity. Defined.

(** C8 at a server that answers 404: no file appears. *)
Lemma DownloadImage_failure_witness :
  downloader.DownloadImage filepath.linux (fun s => s) Samples.join
    (fun _ => true) (fun _ => None) Samples.missing_server ∅
    "https://example.com/photo.jpg" "downloads" 7
  = (∅, Some (downloader.HTTPStatus 404)).
Proof.
  apply (proj2 (DownloadImage_failure filepath.linux (fun s => s) Samples.join
                  (fun _ => true) (fun _ => None) Samples.missing_server ∅
                  "https://example.com/photo.jpg" "downloads" 7)
               Samples.not_found); [reflexivity | vm_compute; lia].
Defined.

(** The file the PNG response leaves: [downloads/image_7.png]. *)
Example DownloadImage_png_file :
  downloader.DownloadImage filepath.linux (fun s => s) Samples.join
    (fun _ => true) (fun _ => None) Samples.png_server ∅
    "https://example.com/photo.jpg" "downloads" 7
  = (<["downloads/image_7.png" := "PNG"]> (<["downloads/image_7.png" := ""]> ∅), None).
Proof. reflexivity. Qed.

(** An unknown content type and a URL without extension: [.jpg]. *)
Example DownloadImage_fallback_file :
  fst (downloader.DownloadImage filepath.linux (fun s => s) Samples.join
         (fun _ => true) (fun _ => None)
         {| downloader.client := fun _ =>
              Some {| downloader.StatusCode := 200;
                      downloader.ContentType := "unknown/type";
                      downloader.Body := "data" |} |}
         ∅ "https://example.com/photo" "downloads" 3)
  !! "downloads/image_3.jpg" = Some "data".
Proof. vm_compute. reflexivity. Qed.

(** ** The row processor *)

Section RowFacts.

Import strings GoInt csv.

Context {W E : Type}.

(** For a column index that is an [int] and a row that is a slice, the
    access [row[urlColumnIndex-1]] of the source reads column
    [urlColumnIndex-1] when the row has it and panics otherwise. *)
Lemma index_sub_column (urlColumnIndex : Z) (row : list string) :
  is_int urlColumnIndex = true -> Spec.is_slice row = true ->
  index row (sub urlColumnIndex 1) = Spec.column row urlColumnIndex.
Proof.
  intros Hint Hslice. apply is_int_spec in Hint.
  unfold Spec.is_slice in Hslice. apply Z.leb_le in Hslice.
  unfold Spec.column, sub.
  destruct (Z.eq_dec urlColumnIndex MinInt) as [-> | Hne].
  - change (wrap (MinInt - 1)) with MaxInt.
    rewrite !index_None; [reflexivity | left; unfold MinInt; lia | right; lia].
  - rewrite wrap_small; [reflexivity | unfold MinInt, MaxInt in *; lia].
Qed.

(** From column index 1 on the guard on the length of the row is enough:
    no bound on the length of the row is needed. *)
Lemma index_sub_guarded (urlColumnIndex : Z) (row : list string) :
  is_int urlColumnIndex = true -> 1 <= urlColumnIndex ->
  index row (sub urlColumnIndex 1) = Spec.column row urlColumnIndex /\
  (urlColumnIndex <= len row ->
   exists cell, Spec.column row urlColumnIndex = Some cell).
Proof.
  intros Hint H1. apply is_int_spec in Hint.
  unfold Spec.column, sub.
  rewrite wrap_small by (unfold MinInt, MaxInt in *; lia).
  split; [reflexivity |]. intros Hlen. apply index_Some. lia.
Qed.

Lemma column_short (urlColumnIndex : Z) (row : list string) :
  len row < urlColumnIndex -> Spec.column row urlColumnIndex = None.
Proof. intros H. apply index_None. right. lia. Qed.

Lemma column_nonpositive (urlColumnIndex : Z) (row : list string) :
  urlColumnIndex <= 0 -> Spec.column row urlColumnIndex = None.
Proof. intros H. apply index_None. left. lia. Qed.

(** C3 (as amended): for a column index from 1 on, every data row read
    has [TotalRows] incremented; a row with fewer than [urlColumnIndex]
    columns, or whose value at column [urlColumnIndex-1] is empty once
    trimmed, has [ErrorCount] incremented and the callback is not
    called; any other row has the callback called with the trimmed URL
    and the row number, and [ErrorCount] incremented when it fails,
    [SuccessCount] otherwise. *)
Theorem processRow_contract (urlColumnIndex : Z) (f : @Callback W E)
    (row : list string) (result : ProcessResult) (rowNum : Z)
    (log : list (string * Z)) (w : W) :
  is_int urlColumnIndex = true -> 1 <= urlColumnIndex ->
  Spec.row_contract urlColumnIndex f row result rowNum log w.
Proof.
  intros Hint H1. unfold Spec.row_contract. cbv zeta.
  cut (forall A B C : Prop, A /\ B -> C -> A /\ B /\ C); [| tauto].
  intros Hcut. apply Hcut; [| intros reader st; reflexivity]. clear Hcut.
  destruct (index_sub_guarded urlColumnIndex row Hint H1) as [Hidx Hcell].
  unfold processRow. rewrite Hidx.
  destruct (Z.ltb_spec (len row) urlColumnIndex) as [Hlt | Hge].
  - split; [intros _; reflexivity |].
    intros Hn. elim Hn. now left.
  - destruct (Hcell Hge) as [cell Hc]. rewrite Hc.
    destruct (String.eqb_spec (TrimSpace cell) "") as [Hempty | Hurl].
    + split; [intros _; reflexivity |].
      intros Hn. elim Hn. right. now exists cell.
    + split.
      * intros [Hlt | (cell' & Hc' & Hempty)]; [lia |].
        congruence.
      * intros _. exists cell. split; [reflexivity |].
        unfold logged. cbn [fst snd].
        destruct (f (TrimSpace cell) rowNum w) as [[e |] w']; reflexivity.
Qed.

End RowFacts.

(** C3 at a row whose URL column is blank, with column index 2. *)
Lemma processRow_contract_witness :
  Spec.row_contract 2 Samples.accept ["dog"; "  "] Samples.zero 2 [] tt.
Proof. apply processRow_contract; [reflexivity | lia]. Defined.

(** C3 as the specification words it fails at column index 0: the row is
    not short, it has no column -1, and the callback is not called: the
    access [row[-1]] panics. *)
Lemma processRow_index_zero :
  ~ Spec.row_contract 0 Samples.accept ["cat"; "https://example.com/cat.jpg"]
      Samples.zero 1 [] tt.
Proof.
  intros (_ & H & _). destruct H as (cell & Hc & _).
  - intros [Hlt | (cell & Hc & _)]; [vm_compute in Hlt | vm_compute in Hc];
      discriminate.
  - vm_compute in Hc. discriminate Hc.
Qed.

(** What the code does on that row. *)
Example processRow_index_zero_panics :
  csv.processRow 0 (csv.logged Samples.accept)
    ["cat"; "https://example.com/cat.jpg"] Samples.zero 1 ([], tt)
  = csv.Panic ([], tt).
Proof. reflexivity. Qed.

Section LoopFacts.

Import strings GoInt csv.

Context {W E : Type}.

Variable urlColumnIndex : Z.
Variable f : @Callback W E.

(** A round that does not panic counts the row, counts it once more as
    an error or as a success, and increments the row number. *)
Lemma processRow_Next_inv (row : list string) (result : ProcessResult)
    (rowNum : Z) (w : W) (result' : ProcessResult) (rowNum' : Z) (w' : W) :
  processRow urlColumnIndex f row result rowNum w = Next result' rowNum' w' ->
  rowNum' = incr rowNum /\
  (result' = incrErrorCount (incrTotalRows result) \/
   result' = incrSuccessCount (incrTotalRows result)).
Proof.
  unfold processRow.
  destruct (len row <? urlColumnIndex).
  - intros [= <- <- <-]. auto.
  - destruct (index row (sub urlColumnIndex 1)) as [cell |]; [| discriminate].
    destruct (String.eqb (TrimSpace cell) "").
    + intros [= <- <- <-]. auto.
    + destruct (f (TrimSpace cell) rowNum w) as [[e |] w1];
        intros [= <- <- <-]; auto.
Qed.

(** A round panics only past the guard on the length, on an access out
    of range, and before the callback is called. *)
Lemma processRow_Panic_inv (row : list string) (result : ProcessResult)
    (rowNum : Z) (w w' : W) :
  processRow urlColumnIndex f row result rowNum w = Panic w' ->
  w' = w /\ (len row <? urlColumnIndex) = false /\
  index row (sub urlColumnIndex 1) = None.
Proof.
  unfold processRow.
  destruct (len row <? urlColumnIndex); [discriminate |].
  destruct (index row (sub urlColumnIndex 1)) as [cell |].
  - destruct (String.eqb (TrimSpace cell) ""); [discriminate |].
    destruct (f (TrimSpace cell) rowNum w) as [[e |] w1]; discriminate.
  - intros [= <-]. auto.
Qed.

(** The loop sees the records up to the first failing [Read] only. *)
Lemma loop_records_read (reader : Reader) :
  forall result rowNum w,
    loop urlColumnIndex f reader result rowNum w
    = loop urlColumnIndex f (map Some (records_read reader)) result rowNum w.
Proof.
  induction reader as [| [row |] reader IH]; intros result rowNum w;
    [reflexivity | | reflexivity].
  cbn [records_read map loop].
  destruct (processRow urlColumnIndex f row result rowNum w); [apply IH | reflexivity].
Qed.

(** The counters of the loop: when it returns, it returns a result and
    no error, the successes and the errors have grown by the number of
    records read, and [TotalRows] is their sum. *)
Lemma loop_counts (reader : Reader) :
  forall result rowNum w s e r err w',
    0 <= s -> 0 <= e ->
    SuccessCount result = wrap s -> ErrorCount result = wrap e ->
    TotalRows result = wrap (s + e) ->
    loop urlColumnIndex f reader result rowNum w = Returned r err w' ->
    exists r' s' e',
      r = Some r' /\ err = None /\ 0 <= s' /\ 0 <= e' /\
      s' + e' = s + e + len (records_read reader) /\
      SuccessCount r' = wrap s' /\ ErrorCount r' = wrap e' /\
      TotalRows r' = wrap (s' + e').
Proof.
  induction reader as [| [row |] reader IH];
    intros result rowNum w s e r err w' Hs He HS HE HT Hloop.
  - injection Hloop as <- <- <-. exists result, s, e.
    cbn [records_read]. unfold len. cbn [length]. repeat split; auto; lia.
  - cbn [loop] in Hloop.
    destruct (processRow urlColumnIndex f row result rowNum w)
      as [result1 rowNum1 w1 | w1] eqn:Hrow; [| discriminate].
    apply processRow_Next_inv in Hrow as [_ Hres].
    assert (Hlen : len (records_read (Some row :: reader))
                   = 1 + len (records_read reader)).
    { cbn [records_read]. unfold len. cbn [length]. lia. }
    destruct Hres as [-> | ->].
    + destruct (IH (incrErrorCount (incrTotalRows result)) rowNum1 w1
                   s (e + 1) r err w')
        as (r' & s' & e' & H1 & H2 & H3 & H4 & H5 & H6);
        [lia | lia | exact HS | cbn; rewrite HE; apply incr_wrap
        | cbn; rewrite HT, incr_wrap; f_equal; lia | exact Hloop |].
      exists r', s', e'. rewrite Hlen. repeat split; try tauto; lia.
    + destruct (IH (incrSuccessCount (incrTotalRows result)) rowNum1 w1
                   (s + 1) e r err w')
        as (r' & s' & e' & H1 & H2 & H3 & H4 & H5 & H6);
        [lia | lia | cbn; rewrite HS; apply incr_wrap | exact HE
        | cbn; rewrite HT, incr_wrap; f_equal; lia | exact Hloop |].
      exists r', s', e'. rewrite Hlen. repeat split; try tauto; lia.
  - injection Hloop as <- <- <-. exists result, s, e.
    cbn [records_read]. unfold len. cbn [length]. repeat split; auto; lia.
Qed.

End LoopFacts.

Section ProcessCSVFacts.

Import strings GoInt csv.

Context {W E : Type}.

Variable os_Open : string -> option Reader.

(** Past the header the call is the loop, from an empty result and row
    number 1. *)
Lemma ProcessCSV_loop (csvFile : string) (urlColumnIndex : Z) (f : @Callback W E)
    (w : W) (header : list string) (data : Reader) :
  os_Open csvFile = Some (Some header :: data) ->
  urlColumnIndex <= len header ->
  ProcessCSV os_Open csvFile urlColumnIndex f w
  = loop urlColumnIndex f data
         {| SuccessCount := 0; ErrorCount := 0; TotalRows := 0 |} 1 w.
Proof.
  intros Hopen Hlen. unfold ProcessCSV. rewrite Hopen. cbn [Read].
  destruct (Z.ltb_spec (len header) urlColumnIndex); [lia | reflexivity].
Qed.

Lemma loop_counts_from_zero (urlColumnIndex : Z) (f : @Callback W E)
    (data : Reader) (w : W) r err w' :
  loop urlColumnIndex f data
       {| SuccessCount := 0; ErrorCount := 0; TotalRows := 0 |} 1 w
  = Returned r err w' ->
  exists r' s' e',
    r = Some r' /\ err = None /\ 0 <= s' /\ 0 <= e' /\
    s' + e' = len (records_read data) /\
    SuccessCount r' = wrap s' /\ ErrorCount r' = wrap e' /\
    TotalRows r' = wrap (s' + e').
Proof.
  intros Hloop.
  destruct (loop_counts urlColumnIndex f data
              {| SuccessCount := 0; ErrorCount := 0; TotalRows := 0 |}
              1 w 0 0 r err w')
    as (r' & s' & e' & H1 & H2 & H3 & H4 & H5 & H6);
    [lia | lia | reflexivity | reflexivity | reflexivity | exact Hloop |].
  exists r', s', e'. repeat split; try tauto; lia.
Qed.

(** The call returns a result exactly when it returns no error. *)
Lemma ProcessCSV_returned (csvFile : string) (urlColumnIndex : Z)
    (f : @Callback W E) (w : W) result err w' :
  ProcessCSV os_Open csvFile urlColumnIndex f w = Returned result err w' ->
  (result = None /\ err <> None /\ w' = w /\
   Spec.structural_failure os_Open csvFile urlColumnIndex) \/
  (err = None /\
   exists r header data,
     result = Some r /\ os_Open csvFile = Some (Some header :: data) /\
     urlColumnIndex <= len header /\
     loop urlColumnIndex f data
          {| SuccessCount := 0; ErrorCount := 0; TotalRows := 0 |} 1 w
     = Returned (Some r) None w').
Proof.
  unfold ProcessCSV, Spec.structural_failure.
  destruct (os_Open csvFile) as [reader |] eqn:Hopen.
  - destruct reader as [| [header |] data]; cbn [Read].
    + intros [= <- <- <-]. left. repeat split; [discriminate |].
      right. left. exists []. auto.
    + destruct (Z.ltb_spec (len header) urlColumnIndex) as [Hlt | Hge].
      * intros [= <- <- <-]. left. repeat split; [discriminate |].
        right. right. exists header, data. auto.
      * intros Hloop. right.
        destruct (loop_counts_from_zero _ _ _ _ _ _ _ Hloop)
          as (r & _ & _ & -> & -> & _).
        split; [reflexivity |]. exists r, header, data. auto.
    + intros [= <- <- <-]. left. repeat split; [discriminate |].
      right. left. exists (None :: data). auto.
  - intros [= <- <- <-]. left. repeat split; [discriminate |]. now left.
Qed.

(** C4: whenever [ProcessCSV] returns without error, [SuccessCount +
    ErrorCount == TotalRows] holds for the result it returns, and
    [TotalRows] is the number of data records read after the header
    before the reader first reports the end of the input or an error. *)
Theorem ProcessCSV_counts (csvFile : string) (urlColumnIndex : Z)
    (f : @Callback W E) (w : W) (result : option ProcessResult) (w' : W) :
  ProcessCSV os_Open csvFile urlColumnIndex f w = Returned result None w' ->
  Spec.counts_contract os_Open csvFile result.
Proof.
  intros Hcall. unfold Spec.counts_contract.
  apply ProcessCSV_returned in Hcall
    as [(_ & Herr & _) | (_ & r & header & data & -> & Hopen & Hlen & Hloop)];
    [now elim Herr |].
  exists r, header, data. split; [reflexivity |]. split; [exact Hopen |].
  destruct (loop_counts_from_zero _ _ _ _ _ _ _ Hloop)
    as (r' & s' & e' & [= <-] & _ & Hs & He & Hsum & HS & HE & HT).
  cbv zeta. replace (len (records_read data)) with (s' + e') by lia.
  split; [| split; [exact HT |]].
  - unfold add. now rewrite HS, HE, wrap_add_l, wrap_add_r.
  - intros Hn. rewrite HS, HE, HT.
    pose proof (len_nonneg (records_read data)).
    rewrite !wrap_small by (unfold MinInt, MaxInt in *; lia). auto.
Qed.

End ProcessCSVFacts.

Section LoggedFacts.

Import strings GoInt csv.

Context {W E : Type}.

Variable os_Open : string -> option Reader.

(** The record of the calls only observes: a run with the logged callback
    is the run with the callback itself. *)
Lemma loop_logged (urlColumnIndex : Z) (f : @Callback W E) (reader : Reader) :
  forall result rowNum log w,
    Spec.erase (loop urlColumnIndex (logged f) reader result rowNum (log, w))
    = loop urlColumnIndex f reader result rowNum w.
Proof.
  induction reader as [| [row |] reader IH]; intros result rowNum log w;
    [reflexivity | | reflexivity].
  cbn [loop]. unfold processRow.
  destruct (len row <? urlColumnIndex); [apply IH |].
  destruct (index row (sub urlColumnIndex 1)) as [cell |]; [| reflexivity].
  destruct (String.eqb (TrimSpace cell) ""); [apply IH |].
  unfold logged at 1. cbn [fst snd].
  destruct (f (TrimSpace cell) rowNum w) as [[e |] w1]; apply IH.
Qed.

Lemma ProcessCSV_logged (csvFile : string) (urlColumnIndex : Z)
    (f : @Callback W E) (log : list (string * Z)) (w : W) :
  Spec.erase (ProcessCSV os_Open csvFile urlColumnIndex (logged f) (log, w))
  = ProcessCSV os_Open csvFile urlColumnIndex f w.
Proof.
  unfold ProcessCSV.
  destruct (os_Open csvFile) as [[| [header |] data] |]; cbn [Read]; try reflexivity.
  destruct (len header <? urlColumnIndex); [reflexivity | apply loop_logged].
Qed.

(** C6: [ProcessCSV] returns an error and no result, the state and the
    record of the calls of the callback being as before the call,
    when the file cannot be opened, the header cannot be read or the
    header has fewer than [urlColumnIndex] columns; and a call that
    returns an error, or no result, is in one of these three cases. *)
Theorem ProcessCSV_structural (csvFile : string) (urlColumnIndex : Z)
    (f : @Callback W E) (log : list (string * Z)) (w : W) :
  (Spec.structural_failure os_Open csvFile urlColumnIndex ->
   exists e,
     ProcessCSV os_Open csvFile urlColumnIndex (logged f) (log, w)
     = Returned None (Some e) (log, w)) /\
  (forall result err st,
     ProcessCSV os_Open csvFile urlColumnIndex (logged f) (log, w)
     = Returned result err st ->
     result = None \/ err <> None ->
     Spec.structural_failure os_Open csvFile urlColumnIndex).
Proof.
  split.
  - unfold Spec.structural_failure, ProcessCSV.
    intros [Hopen | [(reader & Hopen & Hread) | (header & data & Hopen & Hlt)]];
      rewrite Hopen.
    + eauto.
    + destruct reader as [| [header |] data]; cbn [Read fst] in *;
        [eauto | discriminate | eauto].
    + cbn [Read]. destruct (Z.ltb_spec (len header) urlColumnIndex); [eauto | lia].
  - intros result err st Hcall Hfail.
    apply ProcessCSV_returned in Hcall
      as [(_ & _ & _ & Hs) | (-> & r & _ & _ & -> & _)]; [exact Hs |].
    destruct Hfail as [Hr | He]; [discriminate | now elim He].
Qed.

End LoggedFacts.

Section ReturnFacts.

Import strings GoInt csv.

Context {W E : Type}.

Variable os_Open : string -> option Reader.

(** From column index 1 on no round panics. *)
Lemma processRow_no_panic (urlColumnIndex : Z) (f : @Callback W E)
    (row : list string) (result : ProcessResult) (rowNum : Z) (w : W) :
  is_int urlColumnIndex = true -> 1 <= urlColumnIndex ->
  exists result' rowNum' w',
    processRow urlColumnIndex f row result rowNum w = Next result' rowNum' w'.
Proof.
  intros Hint H1.
  destruct (index_sub_guarded urlColumnIndex row Hint H1) as [Hidx Hcell].
  unfold processRow. rewrite Hidx.
  destruct (Z.ltb_spec (len row) urlColumnIndex) as [Hlt | Hge]; [eauto |].
  destruct (Hcell Hge) as [cell ->].
  destruct (String.eqb (TrimSpace cell) ""); [eauto |].
  destruct (f (TrimSpace cell) rowNum w) as [[e |] w1]; eauto.
Qed.

(** From column index 1 on the loop returns a result and no error,
    whatever the rows and the callback do. *)
Lemma loop_returns (urlColumnIndex : Z) (f : @Callback W E) :
  is_int urlColumnIndex = true -> 1 <= urlColumnIndex ->
  forall reader result rowNum w,
  exists result' w',
    loop urlColumnIndex f reader result rowNum w = Returned (Some result') None w'.
Proof.
  intros Hint H1.
  induction reader as [| [row |] reader IH]; intros result rowNum w;
    [cbn; eauto | | cbn; eauto].
  cbn [loop].
  destruct (processRow_no_panic urlColumnIndex f row result rowNum w Hint H1)
    as (result1 & rowNum1 & w1 & ->).
  apply IH.
Qed.

(** C5 (as amended): for a column index from 1 on, when the file opens
    and its header has at least [urlColumnIndex] columns, [ProcessCSV]
    returns a result and no error, whatever happens on the rows; a
    record that cannot be read ends the iteration as the end of the
    input does, and is not reported to the caller. *)
Theorem ProcessCSV_returns_result (csvFile : string) (urlColumnIndex : Z)
    (f : @Callback W E) (w : W) :
  is_int urlColumnIndex = true -> 1 <= urlColumnIndex ->
  Spec.returns_result os_Open csvFile urlColumnIndex f w.
Proof.
  intros Hint H1 header data Hopen Hlen.
  rewrite (ProcessCSV_loop os_Open csvFile urlColumnIndex f w header data Hopen Hlen).
  split.
  - apply loop_returns; assumption.
  - rewrite (ProcessCSV_loop _ csvFile urlColumnIndex f w header
               (map Some (records_read data)) eq_refl Hlen).
    apply loop_records_read.
Qed.

End ReturnFacts.

(** C5 on a file whose fourth record cannot be read, with a callback that
    fails on invalid URLs. *)
Lemma ProcessCSV_returns_result_witness :
  Spec.returns_result (fun _ => Some Samples.broken_file) "data.csv" 2
    Samples.validate tt.
Proof. apply ProcessCSV_returns_result; [reflexivity | lia]. Defined.

(** C5 as the specification words it fails at column index 0: the file
    opens, its header has at least 0 columns, and the call does not
    return. *)
Lemma ProcessCSV_index_zero :
  ~ Spec.returns_result (fun _ => Some Samples.one_row) "data.csv" 0
      Samples.accept tt.
Proof.
  intros H.
  destruct (H ["name"; "url"] [Some ["cat"; "https://example.com/cat.jpg"]]
              eq_refl ltac:(vm_compute; discriminate))
    as [(result & w' & Hcall) _].
  vm_compute in Hcall. discriminate Hcall.
Qed.

(** What the code does on that file. *)
Example ProcessCSV_index_zero_panics :
  csv.ProcessCSV (fun _ => Some Samples.one_row) "data.csv" 0 Samples.accept tt
  = csv.Panicked tt.
Proof. reflexivity. Qed.

(** The outcome on the file with a record that cannot be read: the three
    records before it are counted, the one after it is not. *)
Example ProcessCSV_broken_file :
  csv.ProcessCSV (fun _ => Some Samples.broken_file) "data.csv" 2
    (csv.logged Samples.validate) ([], tt)
  = csv.Returned
      (Some {| csv.SuccessCount := 1; csv.ErrorCount := 2; csv.TotalRows := 3 |})
      None
      ([("https://example.com/cat.jpg", 1); ("not a url", 3)], tt).
Proof. vm_compute. reflexivity. Qed.

(** C4 on that file. *)
Lemma ProcessCSV_counts_witness :
  Spec.counts_contract (fun _ => Some Samples.broken_file) "data.csv"
    (Some {| csv.SuccessCount := 1; csv.ErrorCount := 2; csv.TotalRows := 3 |}).
Proof.
  apply (ProcessCSV_counts (fun _ => Some Samples.broken_file) "data.csv" 2
           Samples.validate tt _ tt).
  vm_compute. reflexivity.
Defined.

(** C6 on a file whose header has two columns, with column index 3. *)
Lemma ProcessCSV_structural_witness :
  exists e,
    csv.ProcessCSV (fun _ => Some Samples.one_row) "data.csv" 3
      (csv.logged Samples.accept) ([], tt)
    = csv.Returned None (Some e) ([], tt).
Proof.
  apply (proj1 (ProcessCSV_structural (fun _ => Some Samples.one_row) "data.csv" 3
                  Samples.accept [] tt)).
  right. right. exists ["name"; "url"], [Some ["cat"; "https://example.com/cat.jpg"]].
  split; [reflexivity | vm_compute; reflexivity].
Defined.

Section GuardFacts.

Import strings GoInt csv.

(** C10: [ProcessCSV] does not check that the column index is at least
    1.  From 1 on, the access [row[urlColumnIndex-1]] is in bounds
    whenever it is executed, and the call never panics; for an index of
    0 or less the guard on the header passes, no row is skipped for its
    length, and the access is out of range on the first data row: the
    call returns only when there is no data row. *)
Theorem index_guard (urlColumnIndex : Z) :
  is_int urlColumnIndex = true -> Spec.index_guard_contract urlColumnIndex.
Proof.
  intros Hint. split.
  - intros H1. split.
    + intros row Hlen.
      destruct (index_sub_guarded urlColumnIndex row Hint H1) as [-> Hcell].
      now apply Hcell.
    + intros W E os_Open csvFile f w w'. unfold ProcessCSV.
      destruct (os_Open csvFile) as [[| [header |] data] |]; cbn [Read];
        try discriminate.
      destruct (len header <? urlColumnIndex); [discriminate |].
      destruct (loop_returns urlColumnIndex f Hint H1 data
                  {| SuccessCount := 0; ErrorCount := 0; TotalRows := 0 |} 1 w)
        as (r & w1 & ->).
      discriminate.
  - intros H0.
    assert (Hguard : forall row : list string, (len row <? urlColumnIndex) = false).
    { intros row. apply Z.ltb_ge. pose proof (len_nonneg row). lia. }
    split; [exact Hguard |]. split; [| split].
    + intros row Hslice. split; [apply Hguard |].
      rewrite (index_sub_column urlColumnIndex row Hint Hslice).
      now apply column_nonpositive.
    + intros W E os_Open csvFile f w header Hopen.
      rewrite (ProcessCSV_loop os_Open csvFile urlColumnIndex f w header [] Hopen);
        [reflexivity |].
      pose proof (len_nonneg header). lia.
    + intros W E os_Open csvFile f w header row data Hopen Hslice.
      rewrite (ProcessCSV_loop os_Open csvFile urlColumnIndex f w header
                 (Some row :: data) Hopen);
        [| pose proof (len_nonneg header); lia].
      cbn [loop]. unfold processRow. rewrite Hguard.
      rewrite (index_sub_column urlColumnIndex row Hint Hslice).
      now rewrite column_nonpositive.
Qed.

End GuardFacts.

(** C10 at column index 0. *)
Lemma index_guard_witness : Spec.index_guard_contract 0.
Proof. apply index_guard. reflexivity. Defined.

Section RowNumberFacts.

Import strings GoInt csv.

Context {W E : Type}.

Variable os_Open : string -> option Reader.
Variable urlColumnIndex : Z.
Variable f : @Callback W E.

Hypothesis Hint : is_int urlColumnIndex = true.

Lemma omap_call_of_nonpositive (l : list (Z * list string)) :
  urlColumnIndex <= 0 -> omap (Spec.call_of urlColumnIndex) l = [].
Proof.
  intros H0. induction l as [| [n row] l IH]; [reflexivity |].
  cbn [omap list_omap]. unfold Spec.call_of at 1. cbn [fst snd].
  rewrite (column_nonpositive urlColumnIndex row H0). exact IH.
Qed.

(** The loop entered at the [k]-th record calls the callback for the
    records that have a URL, each with its position. *)
Lemma loop_calls (reader : Reader) :
  forall (k : nat) result log w,
    (1 <= k)%nat ->
    Z.of_nat k - 1 + len (records_read reader) <= MaxInt ->
    Forall (fun row => Spec.is_slice row = true) (records_read reader) ->
    Spec.calls_made
      (loop urlColumnIndex (logged f) reader result (wrap (Z.of_nat k)) (log, w))
    = (log ++ omap (Spec.call_of urlColumnIndex)
                (combine (map Z.of_nat (seq k (length (records_read reader))))
                         (records_read reader)))%list.
Proof.
  induction reader as [| [row |] reader IH]; intros k result log w Hk Hmax Hslices;
    [cbn; now rewrite app_nil_r | | cbn; now rewrite app_nil_r].
  cbn [records_read] in *.
  apply Forall_cons_1 in Hslices as [Hslice Hslices].
  assert (Hlen : len (row :: records_read reader) = 1 + len (records_read reader)).
  { unfold len. cbn [length]. lia. }
  rewrite Hlen in Hmax.
  pose proof (len_nonneg (records_read reader)) as Hnn.
  assert (Hnext : incr (wrap (Z.of_nat k)) = wrap (Z.of_nat (S k))).
  { rewrite incr_wrap. f_equal. lia. }
  cbn [length seq map combine omap list_omap loop].
  unfold processRow, Spec.call_of at 1. cbn [fst snd].
  rewrite (index_sub_column urlColumnIndex row Hint Hslice).
  destruct (Z.ltb_spec (len row) urlColumnIndex) as [Hlt | Hge].
  - rewrite (column_short urlColumnIndex row Hlt), Hnext.
    apply IH; [lia | lia | exact Hslices].
  - destruct (Spec.column row urlColumnIndex) as [cell |] eqn:Hcol.
    + destruct (String.eqb (TrimSpace cell) "").
      * rewrite Hnext. apply IH; [lia | lia | exact Hslices].
      * unfold logged at 1. cbn [fst snd].
        destruct (f (TrimSpace cell) (wrap (Z.of_nat k)) w) as [[e |] w1];
          rewrite Hnext, IH by (try lia; exact Hslices);
          rewrite <- app_assoc; cbn [app];
          rewrite wrap_small by (unfold MinInt, MaxInt in *; lia);
          reflexivity.
    + cbn [Spec.calls_made Spec.final_state fst].
      assert (H0 : urlColumnIndex <= 0).
      { destruct (Z.le_gt_cases urlColumnIndex 0) as [H0 | H1]; [exact H0 |].
        destruct (index_sub_guarded urlColumnIndex row Hint ltac:(lia))
          as [_ Hcell].
        destruct (Hcell Hge) as [cell Hc]. congruence. }
      now rewrite (omap_call_of_nonpositive _ H0), app_nil_r.
Qed.

Lemma forallb_slices (records : list (list string)) :
  forallb Spec.is_slice records = true ->
  Forall (fun row => Spec.is_slice row = true) records.
Proof.
  induction records as [| row records IH]; cbn [forallb]; intros H; constructor.
  - now apply andb_true_iff in H as [H1 _].
  - apply andb_true_iff in H as [_ H2]. now apply IH.
Qed.

End RowNumberFacts.

Section RowNumbers.

Import strings GoInt csv.

Context {W E : Type}.

Variable os_Open : string -> option Reader.

(** C7: the row number the callback receives for the [n]-th data record
    read after the header is [n]: the counter starts at 1 and every
    round increments it, for the rows that are skipped and for the rows
    whose callback fails as for the others. *)
Theorem ProcessCSV_row_numbers (csvFile : string) (urlColumnIndex : Z)
    (f : @Callback W E) (w : W) (header : list string) (data : Reader) :
  Spec.well_typed urlColumnIndex (records_read data) = true ->
  os_Open csvFile = Some (Some header :: data) ->
  urlColumnIndex <= len header ->
  Spec.row_numbers_contract os_Open csvFile urlColumnIndex f w data.
Proof.
  intros Htyped Hopen Hlen. unfold Spec.well_typed in Htyped.
  apply andb_true_iff in Htyped as [Htyped Hrows].
  apply andb_true_iff in Htyped as [Hint Hdata].
  unfold Spec.is_slice in Hdata. apply Z.leb_le in Hdata.
  split.
  - rewrite (ProcessCSV_loop os_Open csvFile urlColumnIndex (logged f) ([], w)
               header data Hopen Hlen).
    change 1 with (wrap (Z.of_nat 1)).
    rewrite (loop_calls urlColumnIndex f Hint data 1).
    + reflexivity.
    + lia.
    + unfold MaxInt in *. lia.
    + now apply forallb_slices.
  - intros row result rowNum st result' rowNum' st' Hrow.
    now apply processRow_Next_inv in Hrow as [-> _].
Qed.

End RowNumbers.

(** C7 on the file with a record that cannot be read: the first and the
    third record reach the callback, with row numbers 1 and 3. *)
Lemma ProcessCSV_row_numbers_witness :
  Spec.row_numbers_contract (fun _ => Some Samples.broken_file) "data.csv" 2
    Samples.validate tt (tl Samples.broken_file).
Proof.
  apply (ProcessCSV_row_numbers (fun _ => Some Samples.broken_file) "data.csv" 2
           Samples.validate tt ["name"; "url"]);
    [reflexivity | reflexivity | unfold GoInt.len; simpl; lia].
Defined.

Example expected_calls_broken_file :
  Spec.expected_calls 2 (csv.records_read (tl Samples.broken_file))
  = [("https://example.com/cat.jpg", 1); ("not a url", 3)].
Proof. vm_compute. reflexivity. Qed.

(** The second scenario of section 8, run through [ProcessCSV], the
    callback of [main] and [DownloadImage]: three successes, four errors,
    and files for the rows 1, 3 and 7 only. *)
Example scenario_seven_rows :
  csv.ProcessCSV (fun _ => Some Samples.scenario_file) "data.csv" 2
    (cli.onRow filepath.linux (fun s => s) Samples.join (fun _ => true)
               (fun _ => None) Samples.scenario_server) ∅
  = csv.Returned
      (Some {| csv.SuccessCount := 3; csv.ErrorCount := 4; csv.TotalRows := 7 |})
      None
      (list_to_map [("downloads/image_1.jpg", "data");
                    ("downloads/image_3.png", "data");
                    ("downloads/image_7.jpg", "data")]).
Proof. vm_compute. reflexivity. Qed.

(** * Further properties *)

(** ** [ValidateCSVStructure] *)

Section ValidationFacts.

Import strings GoInt csv.

Variable os_Open : string -> option Reader.

Lemma validateRows_None_iff (expectedColumns : Z) (reader : Reader) :
  forall rowCount,
    validateRows expectedColumns reader rowCount = None <->
    Forall (fun row : list string => expectedColumns <= len row) (records_read reader).
Proof.
  induction reader as [| [row |] reader IH]; intros rowCount;
    cbn [validateRows records_read].
  - split; [constructor | reflexivity].
  - destruct (Z.ltb_spec (len row) expectedColumns) as [Hlt | Hge].
    + split; [discriminate |]. intros H. apply Forall_cons_1 in H as [H _]. lia.
    + rewrite IH. split.
      * intros H. now constructor.
      * intros H. now apply Forall_cons_1 in H as [_ H].
  - split; [constructor | reflexivity].
Qed.

Lemma validateRows_error (expectedColumns : Z) (reader : Reader) :
  forall rowCount e,
    validateRows expectedColumns reader rowCount = Some e ->
    exists k got, e = RowColumns k expectedColumns got /\ got < expectedColumns.
Proof.
  induction reader as [| [row |] reader IH]; intros rowCount e;
    cbn [validateRows]; try discriminate.
  destruct (Z.ltb_spec (len row) expectedColumns) as [Hlt | Hge].
  - intros [= <-]. eauto.
  - apply IH.
Qed.

Lemma validateRows_uniform (expectedColumns : Z) (header : list string)
    (data : Reader) :
  Spec.fields_per_record header data ->
  expectedColumns <= len header ->
  forall rowCount, validateRows expectedColumns data rowCount = None.
Proof.
  intros Hdata Hlen rowCount. apply validateRows_None_iff.
  induction Hdata as [| [row |] data Hrow _ IH]; cbn [records_read];
    constructor; [lia | exact IH].
Qed.

(** X1: [ValidateCSVStructure] returns [nil] exactly when the file opens,
    its header can be read and has at least [expectedColumns] columns,
    and every record read before the first failing [Read] has at least
    [expectedColumns] columns; what follows a record that cannot be read
    is not looked at. *)
Theorem ValidateCSVStructure_nil_iff (filename : string) (expectedColumns : Z) :
  ValidateCSVStructure os_Open filename expectedColumns = None <->
  Spec.valid_structure os_Open filename expectedColumns.
Proof.
  unfold ValidateCSVStructure, Spec.valid_structure. split.
  - destruct (os_Open filename) as [[| [header |] data] |]; cbn [Read];
      try discriminate.
    destruct (Z.ltb_spec (len header) expectedColumns) as [Hlt | Hge];
      [discriminate |].
    intros H. apply validateRows_None_iff in H. exists header, data. auto.
  - intros (header & data & -> & Hlen & Hrows). cbn [Read].
    destruct (Z.ltb_spec (len header) expectedColumns) as [Hlt | Hge]; [lia |].
    now apply validateRows_None_iff.
Qed.

(** X2: on the records [csv.NewReader] delivers, each with as many
    fields as the header, the header decides the validation:
    [ValidateCSVStructure] returns [nil] exactly when the header has at
    least [expectedColumns] columns, the error on the header otherwise,
    and never the error on a row. *)
Theorem ValidateCSVStructure_header_decides (filename : string)
    (expectedColumns : Z) (header : list string) (data : Reader) :
  os_Open filename = Some (Some header :: data) ->
  Spec.fields_per_record header data ->
  (ValidateCSVStructure os_Open filename expectedColumns = None <->
   expectedColumns <= len header) /\
  (len header < expectedColumns ->
   ValidateCSVStructure os_Open filename expectedColumns
   = Some (HeaderColumns expectedColumns (len header))) /\
  (forall rowCount expected got,
     ValidateCSVStructure os_Open filename expectedColumns
     <> Some (RowColumns rowCount expected got)).
Proof.
  intros Hopen Hdata. unfold ValidateCSVStructure. rewrite Hopen. cbn [Read].
  destruct (Z.ltb_spec (len header) expectedColumns) as [Hlt | Hge].
  - split; [split; [discriminate | lia] |]. split; [reflexivity | discriminate].
  - rewrite (validateRows_uniform expectedColumns header data Hdata Hge 0).
    split; [split; [intros _; exact Hge | reflexivity] |].
    split; [lia | discriminate].
Qed.

(** X3: validation is monotone in the number of columns asked for: a file
    that is valid for [n] columns is valid for every smaller number. *)
Theorem ValidateCSVStructure_monotone (filename : string) (n m : Z) :
  m <= n ->
  ValidateCSVStructure os_Open filename n = None ->
  ValidateCSVStructure os_Open filename m = None.
Proof.
  intros Hmn. unfold ValidateCSVStructure.
  destruct (os_Open filename) as [[| [header |] data] |]; cbn [Read];
    try discriminate.
  destruct (Z.ltb_spec (len header) n) as [Hlt | Hge]; [discriminate |].
  destruct (Z.ltb_spec (len header) m) as [Hlt' | _]; [lia |].
  rewrite !validateRows_None_iff. apply List.Forall_impl. intros row Hrow. lia.
Qed.

End ValidationFacts.

(** X2 on the file with a record that cannot be read, whose records
    have the two fields of the header. *)
Lemma ValidateCSVStructure_header_decides_witness :
  (csv.ValidateCSVStructure (fun _ => Some Samples.broken_file) "data.csv" 2 = None <->
   2 <= GoInt.len ["name"; "url"]) /\
  (GoInt.len ["name"; "url"] < 2 ->
   csv.ValidateCSVStructure (fun _ => Some Samples.broken_file) "data.csv" 2
   = Some (csv.HeaderColumns 2 (GoInt.len ["name"; "url"]))) /\
  (forall rowCount expected got,
     csv.ValidateCSVStructure (fun _ => Some Samples.broken_file) "data.csv" 2
     <> Some (csv.RowColumns rowCount expected got)).
Proof.
  apply (ValidateCSVStructure_header_decides
           (fun _ => Some Samples.broken_file) "data.csv" 2
           ["name"; "url"] (tl Samples.broken_file)).
  - reflexivity.
  - unfold Spec.fields_per_record. repeat constructor.
Defined.

(** X3 on the file with a record that cannot be read: valid for two
    columns, hence for one. *)
Lemma ValidateCSVStructure_monotone_witness :
  csv.ValidateCSVStructure (fun _ => Some Samples.broken_file) "data.csv" 1 = None.
Proof.
  apply (ValidateCSVStructure_monotone (fun _ => Some Samples.broken_file)
           "data.csv" 2 1); [lia | reflexivity].
Defined.

Section ValidationAndProcessing.

Import strings GoInt csv.

Variable os_Open : string -> option Reader.

(** X4: [ProcessCSV] fails as a call on the files on which
    [ValidateCSVStructure] reports something else than a short row: both
    functions open the file and check the header in the same way, and a
    short row, which validation rejects, is no error of the call of
    [ProcessCSV]. *)
Theorem ProcessCSV_error_iff_validation {W E : Type} (csvFile : string)
    (urlColumnIndex : Z) (f : @Callback W E) (w : W) :
  (exists e w',
     ProcessCSV os_Open csvFile urlColumnIndex f w = Returned None (Some e) w') <->
  (exists e,
     ValidateCSVStructure os_Open csvFile urlColumnIndex = Some e /\
     forall k expected got, e <> RowColumns k expected got).
Proof.
  unfold ProcessCSV, ValidateCSVStructure.
  destruct (os_Open csvFile) as [[| [header |] data] |]; cbn [Read].
  - split; [intros _ | intros _; eauto]. exists HeaderUnreadable. split; [reflexivity | discriminate].
  - destruct (Z.ltb_spec (len header) urlColumnIndex) as [Hlt | Hge].
    + split; [intros _ | intros _; eauto].
      exists (HeaderColumns urlColumnIndex (len header)).
      split; [reflexivity | discriminate].
    + split.
      * intros (e & w' & Hloop).
        apply loop_counts_from_zero in Hloop as (r & _ & _ & Hr & _). discriminate Hr.
      * intros (e & Hv & Hne).
        apply validateRows_error in Hv as (k & got & -> & _).
        now elim (Hne k urlColumnIndex got).
  - split; [intros _ | intros _; eauto]. exists HeaderUnreadable. split; [reflexivity | discriminate].
  - split; [intros _ | intros _; eauto].
    exists OpenForValidationFailed. split; [reflexivity | discriminate].
Qed.

(** X5: on a file that [ValidateCSVStructure] accepts for a column index
    from 1 on, [ProcessCSV] with that index never takes the branch of the
    short rows: on every record it reads the access [row[urlColumnIndex-1]]
    is in bounds, and the call returns a result and no error. *)
Theorem validated_rows_in_bounds (csvFile : string) (urlColumnIndex : Z) :
  is_int urlColumnIndex = true -> 1 <= urlColumnIndex ->
  ValidateCSVStructure os_Open csvFile urlColumnIndex = None ->
  exists header data,
    os_Open csvFile = Some (Some header :: data) /\
    Forall (fun row : list string =>
              (len row <? urlColumnIndex) = false /\
              exists cell, index row (sub urlColumnIndex 1) = Some cell)
           (records_read data) /\
    forall (W E : Type) (f : @Callback W E) (w : W),
    exists result w',
      ProcessCSV os_Open csvFile urlColumnIndex f w = Returned (Some result) None w'.
Proof.
  intros Hint H1. unfold ValidateCSVStructure.
  destruct (os_Open csvFile) as [[| [header |] data] |] eqn:Hopen; cbn [Read];
    try discriminate.
  destruct (Z.ltb_spec (len header) urlColumnIndex) as [Hlt | Hge]; [discriminate |].
  intros Hrows. apply validateRows_None_iff in Hrows.
  exists header, data. split; [reflexivity |]. split.
  - apply (List.Forall_impl _ (P := fun row : list string => urlColumnIndex <= len row));
      [| exact Hrows].
    intros row Hrow. split; [apply Z.ltb_ge; lia |].
    destruct (index_sub_guarded urlColumnIndex row Hint H1) as [-> Hcell].
    now apply Hcell.
  - intros W E f w.
    rewrite (ProcessCSV_loop os_Open csvFile urlColumnIndex f w header data Hopen Hge).
    apply loop_returns; assumption.
Qed.

End ValidationAndProcessing.

(** X5 on the file with a record that cannot be read, valid for two
    columns. *)
Lemma validated_rows_in_bounds_witness :
  exists header data,
    Some Samples.broken_file = Some (Some header :: data) /\
    Forall (fun row : list string =>
              (GoInt.len row <? 2) = false /\
              exists cell, GoInt.index row (GoInt.sub 2 1) = Some cell)
           (csv.records_read data) /\
    forall (W E : Type) (f : @csv.Callback W E) (w : W),
    exists result w',
      csv.ProcessCSV (fun _ => Some Samples.broken_file) "data.csv" 2 f w
      = csv.Returned (Some result) None w'.
Proof.
  apply (validated_rows_in_bounds (fun _ => Some Samples.broken_file) "data.csv" 2);
    [reflexivity | lia | reflexivity].
Defined.

(** ** The content type *)

Section ContentTypeFacts.

Import strings downloader.

Lemma Contains_false (s marker : string) :
  ~ Spec.occurs_in marker s -> Contains s marker = false.
Proof.
  intros H. destruct (Contains s marker) eqn:E; [| reflexivity].
  elim H. now apply Contains_spec.
Qed.

Lemma firstMatch_at (contentType : string) (before : list (string * string)) :
  forall marker extension after,
    Spec.occurs_in marker contentType ->
    (forall m e, In (m, e) before -> ~ Spec.occurs_in m contentType) ->
    Spec.firstMatch contentType (before ++ (marker, extension) :: after)%list = extension.
Proof.
  induction before as [| [m e] before IH]; intros marker extension after Hin Hnot;
    cbn [app Spec.firstMatch].
  - apply Contains_spec in Hin. now rewrite Hin.
  - rewrite (Contains_false contentType m) by (apply (Hnot m e); now left).
    apply IH; [exact Hin |]. intros m' e' H'. apply (Hnot m' e'). now right.
Qed.

Lemma firstMatch_cases (contentType : string) (table : list (string * string)) :
  (Spec.firstMatch contentType table = "" /\
   forall m e, In (m, e) table -> ~ Spec.occurs_in m contentType) \/
  (exists m, In (m, Spec.firstMatch contentType table) table /\
             Spec.occurs_in m contentType).
Proof.
  induction table as [| [m e] table IH]; cbn [Spec.firstMatch].
  - left. split; [reflexivity | intros m e []].
  - destruct (Contains contentType m) eqn:Hm.
    + right. exists m. split; [now left | now apply Contains_spec].
    + destruct IH as [[Heq Hnone] | (m' & Hin & Hocc)].
      * left. split; [exact Heq |]. intros m' e' [[= <- <-] | Hin].
        -- intros Hocc. apply Contains_spec in Hocc. congruence.
        -- now apply (Hnone m' e').
      * right. exists m'. split; [now right | exact Hocc].
Qed.

(** X6: both copies of the switch on the content type take the first
    marker, in the order [image/jpeg], [image/jpg], [image/png],
    [image/gif], [image/webp], [image/bmp], [image/tiff], that occurs
    anywhere in the header value, parameters around it or not, and return
    its extension. *)
Theorem contentType_first_match (contentType marker extension : string)
    (before after : list (string * string)) :
  Spec.contentTypeTable = (before ++ (marker, extension) :: after)%list ->
  Spec.occurs_in marker contentType ->
  (forall m e, In (m, e) before -> ~ Spec.occurs_in m contentType) ->
  getExtensionFromContentType contentType = extension /\
  GetExtensionFromContentType contentType = extension.
Proof.
  intros Htable Hin Hnot.
  assert (H : Spec.firstMatch contentType Spec.contentTypeTable = extension).
  { rewrite Htable. now apply firstMatch_at. }
  split; exact H.
Qed.

(** X7: the content type yields an extension exactly when one of the
    seven markers occurs in it, and the extension is then one of [.jpg],
    [.png], [.gif], [.webp], [.bmp], [.tiff]: never [.jpeg] or [.tif],
    which only a URL can yield. *)
Theorem contentType_extension_range (contentType : string) :
  (getExtensionFromContentType contentType <> "" <->
   exists marker, In marker (map fst Spec.contentTypeTable) /\
                  Spec.occurs_in marker contentType) /\
  (getExtensionFromContentType contentType = "" \/
   In (getExtensionFromContentType contentType)
      [".jpg"; ".png"; ".gif"; ".webp"; ".bmp"; ".tiff"]) /\
  GetExtensionFromContentType contentType = getExtensionFromContentType contentType.
Proof.
  change (getExtensionFromContentType contentType)
    with (Spec.firstMatch contentType Spec.contentTypeTable).
  split; [| split; [| reflexivity]].
  - destruct (firstMatch_cases contentType Spec.contentTypeTable)
      as [[Heq Hnone] | (m & Hin & Hocc)].
    + split; [intros H; now elim H |].
      intros (marker & Hm & Hocc). apply in_map_iff in Hm as ([m e] & <- & Hin).
      now elim (Hnone m e Hin).
    + split.
      * intros _. exists m. split; [| exact Hocc].
        apply in_map_iff. exists (m, Spec.firstMatch contentType Spec.contentTypeTable).
        split; [reflexivity | exact Hin].
      * intros _ Heq. rewrite Heq in Hin. unfold Spec.contentTypeTable in Hin.
        cbn [In] in Hin. repeat (destruct Hin as [Hin | Hin]; [discriminate Hin |]).
        exact Hin.
  - generalize (firstMatch_cases contentType Spec.contentTypeTable).
    generalize (Spec.firstMatch contentType Spec.contentTypeTable) as r.
    intros r [[Heq _] | (m & Hin & _)]; [now left | right].
    unfold Spec.contentTypeTable in Hin. cbn [In] in Hin.
    repeat (destruct Hin as [Hin | Hin];
            [injection Hin as _ <-; cbn [In]; auto 10 |]).
    destruct Hin.
Qed.

End ContentTypeFacts.

(** X6 at a header value with a parameter: [image/png] is the third
    marker, and the two before it do not occur. *)
Lemma contentType_first_match_witness :
  downloader.getExtensionFromContentType "image/png; charset=binary" = ".png" /\
  downloader.GetExtensionFromContentType "image/png; charset=binary" = ".png".
Proof.
  apply (contentType_first_match "image/png; charset=binary" "image/png" ".png"
           [("image/jpeg", ".jpg"); ("image/jpg", ".jpg")]
           [("image/gif", ".gif"); ("image/webp", ".webp"); ("image/bmp", ".bmp");
            ("image/tiff", ".tiff")]).
  - reflexivity.
  - exists "", "; charset=binary". reflexivity.
  - intros m e Hin Hocc. apply Contains_spec in Hocc.
    simpl in Hin. destruct Hin as [[= <- <-] | [[= <- <-] | []]];
      vm_compute in Hocc; discriminate Hocc.
Defined.

(** ** The files [DownloadImage] writes *)

Section FileFacts.

Import strings filepath downloader.

Variable goos : GOOS.
Variable mapUnicodeLower : string -> string.
Variable Join : string -> string -> string.
Variable creatable : string -> bool.
Variable copyStops : string -> option nat.

(** On a response with status OK the call is the creation of the file
    named after the row and the resolved extension. *)
Lemma DownloadImage_ok (d : Downloader) (fs : gmap string string)
    (url downloadDir : string) (rowNum : Z) (resp : Response) :
  client d url = Some resp -> StatusCode resp = StatusOK ->
  DownloadImage goos mapUnicodeLower Join creatable copyStops d fs url downloadDir rowNum
  = createAndCopy creatable copyStops fs
      (Join downloadDir
            (Spec.fileName rowNum
               (Spec.resolve goos mapUnicodeLower (ContentType resp) url)))
      (Body resp).
Proof.
  intros Hget Hok. unfold DownloadImage, Spec.resolve, Spec.fileName.
  rewrite Hget, Hok. cbn [Z.eqb StatusOK negb Pos.eqb].
  destruct (getExtensionFromContentType (ContentType resp)); [| reflexivity].
  destruct (GetExtensionFromURL goos mapUnicodeLower url); reflexivity.
Qed.

(** The resolved extension is one of the eight allowed ones. *)
Lemma resolve_allowed (contentType url : string) :
  In (Spec.resolve goos mapUnicodeLower contentType url) validExts.
Proof.
  unfold Spec.resolve.
  destruct (getExtensionFromContentType contentType) as [| c e] eqn:Hct.
  - unfold GetExtensionFromURL.
    destruct (negb (String.eqb (Ext goos url) "")); [| cbn; auto].
    destruct (matchValidExt_spec mapUnicodeLower
                (ToLower mapUnicodeLower (Ext goos url)) validExts)
      as [[Hin Heq] | [_ Heq]]; rewrite Heq.
    + destruct (ToLower mapUnicodeLower (Ext goos url)); [cbn; auto | exact Hin].
    + cbn. auto.
  - rewrite <- Hct.
    change (getExtensionFromContentType contentType)
      with (Spec.firstMatch contentType Spec.contentTypeTable) in *.
    generalize (firstMatch_cases contentType Spec.contentTypeTable) Hct.
    generalize (Spec.firstMatch contentType Spec.contentTypeTable) as r.
    intros r [[Heq _] | (m & Hin & _)] Hr; [congruence |].
    unfold Spec.contentTypeTable in Hin. cbn [In] in Hin.
    repeat (destruct Hin as [Hin | Hin];
            [injection Hin as _ <-; cbn [In validExts]; auto 10 |]).
    destruct Hin.
Qed.

Lemma substring_prefix (k : nat) (s : string) :
  Spec.prefix_of (String.substring 0 k s) s /\
  String.length (String.substring 0 k s) = Nat.min k (String.length s).
Proof.
  revert k. induction s as [| c s IH]; intros [| k]; cbn [String.substring].
  - split; [exists ""; reflexivity | reflexivity].
  - split; [exists ""; reflexivity | reflexivity].
  - split; [exists (String c s); reflexivity | reflexivity].
  - destruct (IH k) as [[rest Hrest] Hlen]. split.
    + exists rest. rewrite append_cons. now rewrite <- Hrest.
    + cbn [String.length Nat.min]. now rewrite Hlen.
Qed.

(** X8: on a response with status OK, when the file can be created and
    the copy runs to its end, [DownloadImage] returns [nil], the file
    [image_<rowNum><extension>] of the target directory holds exactly the
    body of the response, whatever it held before, and every other file is
    as it was. *)
Theorem DownloadImage_success (d : Downloader) (fs : gmap string string)
    (url downloadDir : string) (rowNum : Z) (resp : Response) :
  let target :=
    Join downloadDir
         (Spec.fileName rowNum
            (Spec.resolve goos mapUnicodeLower (ContentType resp) url)) in
  client d url = Some resp -> StatusCode resp = StatusOK ->
  creatable target = true -> copyStops target = None ->
  exists fs',
    DownloadImage goos mapUnicodeLower Join creatable copyStops
                  d fs url downloadDir rowNum = (fs', None) /\
    fs' !! target = Some (Body resp) /\
    forall path, path <> target -> fs' !! path = fs !! path.
Proof.
  intros target Hget Hok Hcreate Hcopy.
  rewrite (DownloadImage_ok d fs url downloadDir rowNum resp Hget Hok).
  fold target. unfold createAndCopy. rewrite Hcreate, Hcopy. cbn [negb].
  eexists. split; [reflexivity |]. split.
  - apply lookup_insert_eq.
  - intros path Hne. rewrite !lookup_insert_ne by congruence. reflexivity.
Qed.

(** X9: when the copy fails after the file was created, [DownloadImage]
    returns the error of the write and leaves the file behind, truncated:
    it holds the beginning of the body, as many bytes as were copied; the
    old content of the file is lost and every other file is as it was. *)
Theorem DownloadImage_truncated (d : Downloader) (fs : gmap string string)
    (url downloadDir : string) (rowNum : Z) (resp : Response) (k : nat) :
  let target :=
    Join downloadDir
         (Spec.fileName rowNum
            (Spec.resolve goos mapUnicodeLower (ContentType resp) url)) in
  client d url = Some resp -> StatusCode resp = StatusOK ->
  creatable target = true -> copyStops target = Some k ->
  exists fs' written,
    DownloadImage goos mapUnicodeLower Join creatable copyStops
                  d fs url downloadDir rowNum = (fs', Some FailedToWriteFile) /\
    fs' !! target = Some written /\
    Spec.prefix_of written (Body resp) /\
    String.length written = Nat.min k (String.length (Body resp)) /\
    forall path, path <> target -> fs' !! path = fs !! path.
Proof.
  intros target Hget Hok Hcreate Hcopy.
  rewrite (DownloadImage_ok d fs url downloadDir rowNum resp Hget Hok).
  fold target. unfold createAndCopy. rewrite Hcreate, Hcopy. cbn [negb].
  eexists. exists (utf8.slice (Body resp) 0 k).
  split; [reflexivity |]. split; [apply lookup_insert_eq |].
  unfold utf8.slice. rewrite Nat.sub_0_r.
  destruct (substring_prefix k (Body resp)) as [Hpre Hlen].
  split; [exact Hpre |]. split; [exact Hlen |].
  intros path Hne. rewrite !lookup_insert_ne by congruence. reflexivity.
Qed.

(** X10: [DownloadImage] returns [nil] exactly when the client answers
    with status OK, the file can be created and the copy runs to its end;
    and whenever it returns an error other than the error of the write,
    the file system is as it was. *)
Theorem DownloadImage_nil_iff (d : Downloader) (fs : gmap string string)
    (url downloadDir : string) (rowNum : Z) :
  let outcome :=
    DownloadImage goos mapUnicodeLower Join creatable copyStops
                  d fs url downloadDir rowNum in
  (snd outcome = None <->
   exists resp,
     let target :=
       Join downloadDir
            (Spec.fileName rowNum
               (Spec.resolve goos mapUnicodeLower (ContentType resp) url)) in
     client d url = Some resp /\ StatusCode resp = StatusOK /\
     creatable target = true /\ copyStops target = None) /\
  (forall e, snd outcome = Some e -> e <> FailedToWriteFile -> fst outcome = fs).
Proof.
  cbv zeta.
  destruct (client d url) as [resp |] eqn:Hget.
  - destruct (Z.eq_dec (StatusCode resp) StatusOK) as [Hok | Hne].
    + rewrite (DownloadImage_ok d fs url downloadDir rowNum resp Hget Hok).
      unfold createAndCopy.
      set (target := Join downloadDir _).
      destruct (creatable target) eqn:Hcreate; cbn [negb].
      * destruct (copyStops target) as [k |] eqn:Hcopy; cbn [fst snd].
        -- split.
           ++ split; [discriminate |].
              intros (resp' & [= <-] & _ & _ & Hc). fold target in Hc. congruence.
           ++ intros e [= <-] He. now elim He.
        -- split; [| discriminate]. split; [intros _ | reflexivity].
           exists resp. fold target. auto.
      * cbn [fst snd]. split; [| reflexivity]. split; [discriminate |].
        intros (resp' & [= <-] & _ & Hc & _). fold target in Hc. congruence.
    + unfold DownloadImage. rewrite Hget.
      destruct (Z.eqb_spec (StatusCode resp) StatusOK) as [Heq | _];
        [now elim Hne |].
      cbn [negb fst snd]. split; [| reflexivity]. split; [discriminate |].
      intros (resp' & [= <-] & Hok & _). now elim Hne.
  - unfold DownloadImage. rewrite Hget. cbn [fst snd].
    split; [| reflexivity]. split; [discriminate |].
    intros (resp' & Hr & _). discriminate Hr.
Qed.

(** X11: whatever happens, [DownloadImage] changes no file but
    [image_<rowNum><extension>] in the target directory, with one of the
    eight allowed extensions, and it removes no file. *)
Theorem DownloadImage_frame (d : Downloader) (fs : gmap string string)
    (url downloadDir : string) (rowNum : Z) (path : string) :
  let fs' :=
    fst (DownloadImage goos mapUnicodeLower Join creatable copyStops
                       d fs url downloadDir rowNum) in
  (fs' !! path <> fs !! path ->
   exists extension,
     In extension validExts /\
     path = Join downloadDir (Spec.fileName rowNum extension)) /\
  (is_Some (fs !! path) -> is_Some (fs' !! path)).
Proof.
  cbv zeta.
  destruct (client d url) as [resp |] eqn:Hget;
    [| unfold DownloadImage; rewrite Hget; cbn [fst]; split; [congruence | auto]].
  destruct (Z.eq_dec (StatusCode resp) StatusOK) as [Hok | Hne].
  - rewrite (DownloadImage_ok d fs url downloadDir rowNum resp Hget Hok).
    unfold createAndCopy.
    set (extension := Spec.resolve goos mapUnicodeLower (ContentType resp) url).
    set (target := Join downloadDir _).
    assert (Hkeep : forall body : string,
              (<[target := body]> (<[target := ""]> fs) !! path <> fs !! path ->
               exists e, In e validExts /\ path = Join downloadDir (Spec.fileName rowNum e))
              /\ (is_Some (fs !! path) ->
                  is_Some (<[target := body]> (<[target := ""]> fs) !! path))).
    { intros body. destruct (String.eqb_spec target path) as [<- | Hp].
      - split.
        + intros _. exists extension. split; [apply resolve_allowed | reflexivity].
        + intros _. rewrite lookup_insert_eq. eauto.
      - rewrite !lookup_insert_ne by exact Hp. split; [congruence | auto]. }
    destruct (creatable target); cbn [negb fst]; [| split; [congruence | auto]].
    destruct (copyStops target); cbn [fst]; apply Hkeep.
  - unfold DownloadImage. rewrite Hget.
    destruct (Z.eqb_spec (StatusCode resp) StatusOK) as [Heq | _];
      [now elim Hne |].
    cbn [negb fst]. split; [congruence | auto].
Qed.

End FileFacts.

(** X8 at the PNG response, over an older and longer file of the same
    name: the new file holds the three bytes of the body. *)
Lemma DownloadImage_success_witness :
  exists fs',
    downloader.DownloadImage filepath.linux (fun s => s) Samples.join
      (fun _ => true) (fun _ => None) Samples.png_server Samples.old_files
      "https://example.com/photo.jpg" "downloads" 7 = (fs', None) /\
    fs' !! Samples.png_target = Some "PNG" /\
    forall path, path <> Samples.png_target -> fs' !! path = Samples.old_files !! path.
Proof.
  apply (DownloadImage_success filepath.linux (fun s => s) Samples.join
           (fun _ => true) (fun _ => None) Samples.png_server Samples.old_files
           "https://example.com/photo.jpg" "downloads" 7 Samples.png_response);
    reflexivity.
Defined.

(** X9 at a copy that stops after two bytes. *)
Lemma DownloadImage_truncated_witness :
  exists fs' written,
    downloader.DownloadImage filepath.linux (fun s => s) Samples.join
      (fun _ => true) Samples.stops_at_two Samples.png_server Samples.old_files
      "https://example.com/photo.jpg" "downloads" 7
    = (fs', Some downloader.FailedToWriteFile) /\
    fs' !! Samples.png_target = Some written /\
    Spec.prefix_of written "PNG" /\
    String.length written = Nat.min 2 3 /\
    forall path, path <> Samples.png_target -> fs' !! path = Samples.old_files !! path.
Proof.
  apply (DownloadImage_truncated filepath.linux (fun s => s) Samples.join
           (fun _ => true) Samples.stops_at_two Samples.png_server Samples.old_files
           "https://example.com/photo.jpg" "downloads" 7 Samples.png_response 2);
    reflexivity.
Defined.

(** ** File names *)

Section FileNameFacts.

Import strings GoInt downloader.

Lemma uint_no_dot (u : Decimal.uint) :
  Spec.free_of (fun c => Ascii.eqb c ".") (NilEmpty.string_of_uint u).
Proof.
  induction u; cbn [NilEmpty.string_of_uint];
    [intros c [] | apply free_of_cons; [reflexivity | assumption] ..].
Qed.

Lemma itoa_no_dot (n : Z) : Spec.free_of (fun c => Ascii.eqb c ".") (itoa n).
Proof.
  unfold itoa, NilZero.string_of_int, NilZero.string_of_uint.
  destruct (Z.to_int n) as [u | u];
    [| apply free_of_cons; [reflexivity |]];
    (destruct u; [intros c [<- | []]; reflexivity | apply uint_no_dot ..]).
Qed.

Lemma itoa_inj (a b : Z) : itoa a = itoa b -> a = b.
Proof.
  unfold itoa. intros H. apply DecimalZ.to_int_inj.
  assert (Hnorm : forall z, Z.to_int z <> Decimal.Pos Decimal.Nil /\
                            Z.to_int z <> Decimal.Neg Decimal.Nil).
  { intros [| p | p]; cbn; split; try discriminate;
      intros [= Hp]; now apply DecimalPos.Unsigned.to_uint_nonnil in Hp. }
  apply (f_equal NilZero.int_of_string) in H.
  rewrite !NilZero.isi in H by apply Hnorm. congruence.
Qed.

(** Two strings cut at their first dot are cut in the same way. *)
Lemma first_dot_unique (x : string) :
  forall y u v,
    Spec.free_of (fun c => Ascii.eqb c ".") x ->
    Spec.free_of (fun c => Ascii.eqb c ".") y ->
    x ++ String "." u = y ++ String "." v -> x = y /\ u = v.
Proof.
  induction x as [| c x IH]; intros [| c' y] u v Hx Hy Heq;
    rewrite ?append_nil, ?append_cons in Heq.
  - injection Heq as ->. auto.
  - injection Heq as <- _. apply free_of_tail in Hy as [Hc _]. discriminate Hc.
  - injection Heq as -> _. apply free_of_tail in Hx as [Hc _]. discriminate Hc.
  - injection Heq as -> Heq.
    apply free_of_tail in Hx as [_ Hx]. apply free_of_tail in Hy as [_ Hy].
    destruct (IH y u v Hx Hy Heq) as [-> ->]. auto.
Qed.

Lemma validExts_dot (e : string) : In e validExts -> exists u, e = String "." u.
Proof.
  unfold validExts. cbn [In].
  intros H. repeat (destruct H as [<- | H]; [eauto |]). destruct H.
Qed.

(** X12: the file name determines the row: two rows with different
    numbers never get the same file name, whatever their extensions, and
    two files of one row differ in the extension only. *)
Theorem fileName_injective (rowNum rowNum' : Z) (extension extension' : string) :
  In extension validExts -> In extension' validExts ->
  (Spec.fileName rowNum extension = Spec.fileName rowNum' extension' <->
   rowNum = rowNum' /\ extension = extension').
Proof.
  intros He He'. split; [| intros [-> ->]; reflexivity]. intros Heq.
  apply validExts_dot in He as [u ->]. apply validExts_dot in He' as [u' ->].
  unfold Spec.fileName in Heq.
  assert (H : itoa rowNum ++ String "." u = itoa rowNum' ++ String "." u').
  { change ("image_" ++ ?s) with
      (String "i" (String "m" (String "a" (String "g" (String "e" (String "_" s))))))
      in Heq.
    now injection Heq. }
  apply first_dot_unique in H as [Hn ->]; try apply itoa_no_dot.
  split; [now apply itoa_inj | reflexivity].
Qed.

End FileNameFacts.

(** X12 at the rows 1 and 11 with the same extension. *)
Lemma fileName_injective_witness :
  Spec.fileName 1 ".jpg" = Spec.fileName 11 ".jpg" <-> 1 = 11 /\ ".jpg" = ".jpg".
Proof.
  apply (fileName_injective 1 11 ".jpg" ".jpg"); simpl; auto.
Defined.

(** ** Whitespace around a URL *)

Section WhitespaceFacts.

Import strings utf8.

Lemma TrimSpace_leading (l s : string) :
  Spec.all_whitespace l -> TrimSpace (l ++ s) = TrimSpace s.
Proof.
  induction l as [| c l IH]; intros Hl; [reflexivity |].
  assert (Hc : asciiSpace (byte c) = true) by (apply Hl; now left).
  rewrite append_cons. cbn [TrimSpace].
  rewrite (whitespace_is_ascii c Hc), Hc. cbn [negb].
  apply IH. intros x Hx. apply Hl. now right.
Qed.

Lemma get_append_lt (p r : string) (i : nat) :
  (i < String.length p)%nat -> String.get i (p ++ r) = String.get i p.
Proof.
  revert i. induction p as [| c p IH]; intros i Hi; cbn [String.length] in Hi; [lia |].
  rewrite append_cons. destruct i as [| i]; cbn [String.get]; [reflexivity |].
  apply IH. lia.
Qed.

Lemma substring_append_le (p r : string) (k : nat) :
  (k <= String.length p)%nat ->
  String.substring 0 k (p ++ r) = String.substring 0 k p.
Proof.
  revert k. induction p as [| c p IH]; intros k Hk; cbn [String.length] in Hk.
  - replace k with 0%nat by lia. rewrite append_nil. now destruct r.
  - rewrite append_cons. destruct k as [| k]; cbn [String.substring]; [reflexivity |].
    rewrite IH by lia. reflexivity.
Qed.

(** The second loop of [TrimSpace] below the end of [p] does not see what
    follows [p]. *)
Lemma TrimSpace_stop_append (p r : string) (k : nat) :
  (k <= String.length p)%nat ->
  TrimSpace_stop (p ++ r) k = TrimSpace_stop p k.
Proof.
  induction k as [| k IH]; intros Hk; cbn [TrimSpace_stop]; unfold slice, at_.
  - rewrite Nat.sub_0_r. apply (substring_append_le p r 0). lia.
  - rewrite Nat.sub_0_r, (get_append_lt p r k) by lia.
    rewrite (substring_append_le p r (S k)) by lia.
    fold (at_ p k). rewrite IH by lia. reflexivity.
Qed.

Lemma isASCII_append (a b : string) : isASCII (a ++ b) = isASCII a && isASCII b.
Proof.
  induction a as [| c a IH]; [reflexivity |].
  rewrite append_cons. cbn [isASCII]. now rewrite IH, andb_assoc.
Qed.

Lemma TrimSpace_trailing (s r : string) :
  isASCII s = true -> Spec.all_whitespace r -> TrimSpace (s ++ r) = TrimSpace s.
Proof.
  intros Hs Hr. induction s as [| c s IH].
  - rewrite append_nil. now apply TrimSpace_whitespace.
  - cbn [isASCII] in Hs. apply andb_true_iff in Hs as [Hc Hs].
    rewrite append_cons. cbn [TrimSpace].
    replace (RuneSelf <=? byte c) with false
      by (symmetry; apply Z.leb_gt; now apply Z.ltb_lt).
    destruct (asciiSpace (byte c)); cbn [negb]; [now apply IH |].
    rewrite <- append_cons.
    rewrite (TrimSpace_stop_skip r (String c s) Hr).
    apply TrimSpace_stop_append. lia.
Qed.

(** On an ASCII string trimming twice is trimming once. *)
Lemma TrimSpace_idempotent (s : string) :
  isASCII s = true -> TrimSpace (TrimSpace s) = TrimSpace s.
Proof.
  intros Hs. destruct (TrimSpace_trims s Hs) as (l & r & Heq & Hl & Hr & _).
  assert (Ht : isASCII (TrimSpace s) = true).
  { rewrite Heq in Hs. rewrite !isASCII_append in Hs.
    apply andb_true_iff in Hs as [_ Hs]. now apply andb_true_iff in Hs as [Hs _]. }
  rewrite Heq at 2.
  rewrite (TrimSpace_leading l _ Hl), (TrimSpace_trailing _ r Ht Hr).
  reflexivity.
Qed.

(** X13: whitespace around an ASCII string does not change what
    [IsValidURL] answers: the string with leading and trailing blanks, tabs
    and line ends, the string itself and its trimmed form are accepted or
    rejected together. *)
Theorem IsValidURL_whitespace_invariant (l s r : string) :
  isASCII s = true -> Spec.all_whitespace l -> Spec.all_whitespace r ->
  utils.IsValidURL (l ++ s ++ r) = utils.IsValidURL s /\
  utils.IsValidURL (TrimSpace s) = utils.IsValidURL s.
Proof.
  intros Hs Hl Hr. unfold utils.IsValidURL.
  rewrite (TrimSpace_leading l (s ++ r) Hl), (TrimSpace_trailing s r Hs Hr).
  rewrite (TrimSpace_idempotent s Hs). split; reflexivity.
Qed.

End WhitespaceFacts.

(** X13 at a URL between a tab and a line end. *)
Lemma IsValidURL_whitespace_invariant_witness :
  utils.IsValidURL (String "009" " " ++ "https://example.com/a.jpg" ++ String "013" (String "010" ""))
  = utils.IsValidURL "https://example.com/a.jpg" /\
  utils.IsValidURL (strings.TrimSpace "https://example.com/a.jpg")
  = utils.IsValidURL "https://example.com/a.jpg".
Proof.
  apply IsValidURL_whitespace_invariant.
  - reflexivity.
  - intros c Hc. simpl in Hc. destruct Hc as [<- | [<- | []]]; reflexivity.
  - intros c Hc. simpl in Hc. destruct Hc as [<- | [<- | []]]; reflexivity.
Defined.

(** ** Letter case in a URL *)

Section CaseFacts.

Import strings filepath utf8 downloader.

Variable goos : GOOS.
Variable mapUnicodeLower : string -> string.

Lemma lowerByte_facts (c : ascii) :
  IsPathSeparator goos (lowerByte c) = IsPathSeparator goos c /\
  Ascii.eqb (lowerByte c) "." = Ascii.eqb c "." /\
  lowerByte (lowerByte c) = lowerByte c /\
  (byte (lowerByte c) <? RuneSelf) = (byte c <? RuneSelf).
Proof.
  destruct c as [[] [] [] [] [] [] [] []]; destruct goos; repeat split; reflexivity.
Qed.

Lemma lowerASCII_length (s : string) :
  String.length (lowerASCII s) = String.length s.
Proof. induction s as [| c s IH]; cbn; [reflexivity | now rewrite IH]. Qed.

Lemma lowerASCII_get (s : string) (i : nat) :
  String.get i (lowerASCII s) = option_map lowerByte (String.get i s).
Proof.
  revert i. induction s as [| c s IH]; intros i; [reflexivity |].
  destruct i as [| i]; cbn [lowerASCII String.get]; [reflexivity | apply IH].
Qed.

Lemma lowerASCII_substring (s : string) (i m : nat) :
  String.substring i m (lowerASCII s) = lowerASCII (String.substring i m s).
Proof.
  revert i m. induction s as [| c s IH]; intros i m.
  - destruct i, m; reflexivity.
  - destruct i as [| i]; cbn [lowerASCII String.substring].
    + destruct m as [| m]; [reflexivity |]. cbn [lowerASCII]. now rewrite IH.
    + apply IH.
Qed.

Lemma lowerASCII_idempotent (s : string) : lowerASCII (lowerASCII s) = lowerASCII s.
Proof.
  induction s as [| c s IH]; [reflexivity |]. cbn [lowerASCII].
  destruct (lowerByte_facts c) as (_ & _ & -> & _). now rewrite IH.
Qed.

Lemma lowerASCII_isASCII (s : string) : isASCII (lowerASCII s) = isASCII s.
Proof.
  induction s as [| c s IH]; [reflexivity |]. cbn [lowerASCII isASCII].
  destruct (lowerByte_facts c) as (_ & _ & _ & ->). now rewrite IH.
Qed.

Lemma isASCII_substring (s : string) (i m : nat) :
  isASCII s = true -> isASCII (String.substring i m s) = true.
Proof.
  revert i m. induction s as [| c s IH]; intros i m Hs.
  - destruct i, m; reflexivity.
  - cbn [isASCII] in Hs. apply andb_true_iff in Hs as [Hc Hs].
    destruct i as [| i]; cbn [String.substring].
    + destruct m as [| m]; [reflexivity |]. cbn [isASCII]. now rewrite Hc, IH.
    + now apply IH.
Qed.

(** [filepath.Ext] commutes with the lower-casing of ASCII letters. *)
Lemma Ext_lowerASCII (url : string) :
  Ext goos (lowerASCII url) = lowerASCII (Ext goos url).
Proof.
  unfold Ext. rewrite lowerASCII_length.
  induction (String.length url) as [| n IH]; [reflexivity |].
  cbn [Ext_loop]. rewrite lowerASCII_get.
  destruct (String.get n url) as [c |]; cbn [option_map]; [| reflexivity].
  destruct (lowerByte_facts c) as (-> & -> & _).
  destruct (IsPathSeparator goos c); [reflexivity |].
  destruct (Ascii.eqb c "."); [| exact IH].
  unfold from, slice. now rewrite lowerASCII_length, lowerASCII_substring.
Qed.

Lemma Ext_isASCII (url : string) : isASCII url = true -> isASCII (Ext goos url) = true.
Proof.
  intros Hs. unfold Ext. induction (String.length url) as [| n IH]; [reflexivity |].
  cbn [Ext_loop]. destruct (String.get n url) as [c |]; [| reflexivity].
  destruct (IsPathSeparator goos c); [reflexivity |].
  destruct (Ascii.eqb c "."); [| exact IH].
  unfold from, slice. now apply isASCII_substring.
Qed.

Lemma GetExtensionFromURL_lowerASCII (url : string) :
  isASCII url = true ->
  GetExtensionFromURL goos mapUnicodeLower (lowerASCII url)
  = GetExtensionFromURL goos mapUnicodeLower url.
Proof.
  intros Hs. unfold GetExtensionFromURL. rewrite Ext_lowerASCII.
  pose proof (Ext_isASCII url Hs) as He.
  unfold ToLower. rewrite lowerASCII_isASCII, He, lowerASCII_idempotent.
  destruct (Ext goos url); reflexivity.
Qed.

(** X14: on ASCII URLs [GetExtensionFromURL] does not look at the case of
    the letters, in the extension or anywhere else: two URLs that differ
    only in the case of their letters get the same answer. *)
Theorem GetExtensionFromURL_case_insensitive (url url' : string) :
  isASCII url = true -> isASCII url' = true ->
  lowerASCII url = lowerASCII url' ->
  GetExtensionFromURL goos mapUnicodeLower url
  = GetExtensionFromURL goos mapUnicodeLower url'.
Proof.
  intros Hs Hs' Heq.
  rewrite <- (GetExtensionFromURL_lowerASCII url Hs).
  rewrite <- (GetExtensionFromURL_lowerASCII url' Hs').
  now rewrite Heq.
Qed.

End CaseFacts.

(** X14 at two spellings of one URL. *)
Lemma GetExtensionFromURL_case_insensitive_witness :
  downloader.GetExtensionFromURL filepath.windows (fun s => s)
    "HTTPS://Example.COM/Photos/Cat.JpEg"
  = downloader.GetExtensionFromURL filepath.windows (fun s => s)
    "https://example.com/photos/cat.jpeg".
Proof.
  apply GetExtensionFromURL_case_insensitive; reflexivity.
Defined.

(** ** What [ProcessCSV] counts and what the callback sees *)

Section TraceFacts.

Import strings GoInt csv.

Context {W E : Type}.

Variable os_Open : string -> option Reader.
Variable urlColumnIndex : Z.
Variable f : @Callback W E.





End TraceFacts.


Section CallFacts.

Import strings GoInt csv.

Context {W E : Type}.

Variable os_Open : string -> option Reader.
Variable urlColumnIndex : Z.

Lemma index_In (row : list string) (i : Z) (cell : string) :
  index row i = Some cell -> In cell row.
Proof.
  unfold index. destruct ((i <? 0) || (len row <=? i)); [discriminate |].
  apply nth_error_In.
Qed.

(** Every call the loop adds to the record has a URL of a record of the
    reader. *)
Lemma loop_urls (f : @Callback W E) (reader : Reader) :
  forall result rowNum log w call,
    In call (Spec.calls_made
               (loop urlColumnIndex (logged f) reader result rowNum (log, w))) ->
    In call log \/ Spec.url_of_record (records_read reader) (fst call).
Proof.
  induction reader as [| [row |] reader IH]; intros result rowNum log w call;
    [cbn; auto | | cbn; auto].
  cbn [loop records_read]. unfold processRow.
  assert (Hnext : forall result' rowNum' log' w',
    (In call log' ->
     In call log \/ Spec.url_of_record (row :: records_read reader) (fst call)) ->
    In call (Spec.calls_made
               (loop urlColumnIndex (logged f) reader result' rowNum' (log', w'))) ->
    In call log \/ Spec.url_of_record (row :: records_read reader) (fst call)).
  { intros result' rowNum' log' w' Hlog Hin.
    apply IH in Hin as [Hin | (Hne & r & c & Hr & Hc & Hu)]; [now apply Hlog |].
    right. split; [exact Hne |]. exists r, c. split; [now right | auto]. }
  destruct (len row <? urlColumnIndex); [apply Hnext; auto |].
  destruct (index row (sub urlColumnIndex 1)) as [cell |] eqn:Hcell;
    [| cbn; auto].
  destruct (String.eqb_spec (TrimSpace cell) "") as [_ | Hne]; [apply Hnext; auto |].
  unfold logged at 1. cbn [fst snd].
  assert (Hnew : In call (log ++ [(TrimSpace cell, rowNum)])%list ->
                 In call log \/
                 Spec.url_of_record (row :: records_read reader) (fst call)).
  { intros Hin. apply in_app_or in Hin as [Hin | [<- | []]]; [now left | right].
    split; [exact Hne |]. exists row, cell.
    split; [now left |]. split; [now apply index_In in Hcell | reflexivity]. }
  destruct (f (TrimSpace cell) rowNum w) as [[e |] w1]; apply Hnext; exact Hnew.
Qed.

(** X16: every URL the callback receives is the trimmed content of a cell
    of a data record read before the first failing [Read], and is not
    empty: the header and what follows a record that cannot be read never
    reach the callback. *)
Theorem ProcessCSV_urls_from_records (csvFile : string) (f : @Callback W E)
    (w : W) (url : string) (rowNum : Z) :
  In (url, rowNum)
     (Spec.calls_made
        (ProcessCSV os_Open csvFile urlColumnIndex (logged f) ([], w))) ->
  exists header data,
    os_Open csvFile = Some (Some header :: data) /\
    Spec.url_of_record (records_read data) url.
Proof.
  unfold ProcessCSV.
  destruct (os_Open csvFile) as [[| [header |] data] |]; cbn [Read];
    try (intros []).
  destruct (len header <? urlColumnIndex); [intros [] |].
  intros Hin. apply loop_urls in Hin as [[] | Hurl].
  exists header, data. split; [reflexivity | exact Hurl].
Qed.

(** Whatever the callback keeps true, the loop keeps true. *)
Lemma loop_invariant (f : @Callback W E) (I : W -> Prop) :
  (forall url rowNum w, url <> "" -> I w -> I (snd (f url rowNum w))) ->
  forall reader result rowNum w,
    I w -> I (Spec.final_state (loop urlColumnIndex f reader result rowNum w)).
Proof.
  intros Hf. induction reader as [| [row |] reader IH]; intros result rowNum w Hw;
    [exact Hw | | exact Hw].
  cbn [loop]. unfold processRow.
  destruct (len row <? urlColumnIndex); [now apply IH |].
  destruct (index row (sub urlColumnIndex 1)) as [cell |]; [| exact Hw].
  destruct (String.eqb_spec (TrimSpace cell) "") as [_ | Hne]; [now apply IH |].
  pose proof (Hf (TrimSpace cell) rowNum w Hne Hw) as Hw1.
  destruct (f (TrimSpace cell) rowNum w) as [[e |] w1]; apply IH; exact Hw1.
Qed.

(** X17: [ProcessCSV] acts on the state through the callback only: a
    property of the state that every call of the callback on a non-empty
    URL keeps holds after the call of [ProcessCSV] when it held before,
    however the call ends. *)
Theorem ProcessCSV_invariant (csvFile : string) (f : @Callback W E)
    (I : W -> Prop) (w : W) :
  (forall url rowNum w, url <> "" -> I w -> I (snd (f url rowNum w))) ->
  I w ->
  I (Spec.final_state (ProcessCSV os_Open csvFile urlColumnIndex f w)).
Proof.
  intros Hf Hw. unfold ProcessCSV.
  destruct (os_Open csvFile) as [[| [header |] data] |]; cbn [Read];
    try exact Hw.
  destruct (len header <? urlColumnIndex); [exact Hw |].
  now apply loop_invariant.
Qed.

(** Two callbacks that agree on the non-empty URLs give the same run. *)
Lemma loop_ext (f g : @Callback W E) :
  (forall url rowNum w, url <> "" -> f url rowNum w = g url rowNum w) ->
  forall reader result rowNum w,
    loop urlColumnIndex f reader result rowNum w
    = loop urlColumnIndex g reader result rowNum w.
Proof.
  intros Hfg. induction reader as [| [row |] reader IH]; intros result rowNum w;
    [reflexivity | | reflexivity].
  cbn [loop]. unfold processRow.
  destruct (len row <? urlColumnIndex); [apply IH |].
  destruct (index row (sub urlColumnIndex 1)) as [cell |]; [| reflexivity].
  destruct (String.eqb_spec (TrimSpace cell) "") as [_ | Hne]; [apply IH |].
  rewrite (Hfg (TrimSpace cell) rowNum w Hne).
  destruct (g (TrimSpace cell) rowNum w) as [[e |] w1]; apply IH.
Qed.

End CallFacts.

(** X16 at the call for the third record of the file with a record that
    cannot be read. *)
Lemma ProcessCSV_urls_from_records_witness :
  exists header data,
    Some Samples.broken_file = Some (Some header :: data) /\
    Spec.url_of_record (csv.records_read data) "not a url".
Proof.
  apply (ProcessCSV_urls_from_records (fun _ => Some Samples.broken_file) 2
           "data.csv" Samples.validate tt "not a url" 3).
  vm_compute. right. left. reflexivity.
Defined.

(** X17 with a callback that counts its calls, and the property that the
    count is not negative. *)
Lemma ProcessCSV_invariant_witness :
  0 <= Spec.final_state
         (csv.ProcessCSV (fun _ => Some Samples.broken_file) "data.csv" 2
            (fun (_ : string) (_ : Z) (calls : Z) => (@None unit, calls + 1)) 0).
Proof.
  apply (ProcessCSV_invariant (fun _ => Some Samples.broken_file) 2 "data.csv"
           (fun (_ : string) (_ : Z) (calls : Z) => (@None unit, calls + 1))
           (fun calls => 0 <= calls) 0).
  - intros url rowNum w _ Hw. simpl. lia.
  - lia.
Defined.

(** ** The command line: [ProcessCSV] with the callback of [main] *)

Section CommandLineFacts.

Import strings filepath downloader.

Variable goos : GOOS.
Variable mapUnicodeLower : string -> string.
Variable Join : string -> string -> string.
Variable creatable : string -> bool.
Variable copyStops : string -> option nat.
Variable os_Open : string -> option csv.Reader.

Lemma createAndCopy_frame (fs : gmap string string) (target body path : string) :
  let fs' := fst (createAndCopy creatable copyStops fs target body) in
  (path <> target -> fs' !! path = fs !! path) /\
  (is_Some (fs !! path) -> is_Some (fs' !! path)).
Proof.
  cbv zeta. unfold createAndCopy.
  destruct (creatable target); cbn [negb fst]; [| auto].
  destruct (copyStops target); cbn [fst];
    (split; [intros Hne; rewrite !lookup_insert_ne by congruence; reflexivity |];
     intros Hsome; destruct (String.eqb_spec target path) as [<- | Hp];
     [rewrite lookup_insert_eq; eauto
     | rewrite !lookup_insert_ne by exact Hp; exact Hsome]).
Qed.

(** What the callback of [main] does to the file system: nothing, or what
    the creation of the file of the row does. *)
Lemma onRow_state (d : Downloader) (url : string) (rowNum : Z)
    (fs : gmap string string) :
  let fs' := snd (cli.onRow goos mapUnicodeLower Join creatable copyStops d
                            url rowNum fs) in
  fs' = fs \/
  exists resp,
    utils.IsValidURL url = true /\ client d url = Some resp /\
    fs' = fst (createAndCopy creatable copyStops fs
                 (Join cli.downloadsDir
                       (Spec.fileName rowNum
                          (Spec.resolve goos mapUnicodeLower (ContentType resp) url)))
                 (Body resp)).
Proof.
  cbv zeta. unfold cli.onRow.
  destruct (utils.IsValidURL url) eqn:Hvalid; cbn [negb snd]; [| now left].
  destruct (client d url) as [resp |] eqn:Hget.
  - destruct (Z.eq_dec (StatusCode resp) StatusOK) as [Hok | Hne].
    + rewrite (DownloadImage_ok goos mapUnicodeLower Join creatable copyStops
                 d fs url cli.downloadsDir rowNum resp Hget Hok).
      right. exists resp. split; [reflexivity |]. split; [reflexivity |].
      now destruct (createAndCopy _ _ _ _ _).
    + unfold DownloadImage. rewrite Hget.
      destruct (Z.eqb_spec (StatusCode resp) StatusOK); [now elim Hne | now left].
  - unfold DownloadImage. rewrite Hget. now left.
Qed.

(** X18: a run of the command line changes no file but files
    [image_<rowNum><extension>] of the directory [downloads], with one of
    the eight allowed extensions, and removes no file, however the run
    ends. *)
Theorem cli_writes_only_images (d : Downloader) (csvFile : string)
    (urlColumnIndex : Z) (fs : gmap string string) (path : string) :
  let fs' :=
    Spec.final_state
      (csv.ProcessCSV os_Open csvFile urlColumnIndex
         (cli.onRow goos mapUnicodeLower Join creatable copyStops d) fs) in
  (fs' !! path <> fs !! path -> Spec.image_path Join path) /\
  (is_Some (fs !! path) -> is_Some (fs' !! path)).
Proof.
  cbv zeta.
  set (I := fun fs1 : gmap string string =>
              (fs1 !! path <> fs !! path -> Spec.image_path Join path) /\
              (is_Some (fs !! path) -> is_Some (fs1 !! path))).
  change (I (Spec.final_state
               (csv.ProcessCSV os_Open csvFile urlColumnIndex
                  (cli.onRow goos mapUnicodeLower Join creatable copyStops d) fs))).
  assert (Hstep : forall url rowNum fs1, I fs1 ->
            I (snd (cli.onRow goos mapUnicodeLower Join creatable copyStops d
                              url rowNum fs1))).
  { intros url rowNum fs1 [Hchange Hkeep].
    destruct (onRow_state d url rowNum fs1) as [-> | (resp & _ & _ & ->)];
      [split; assumption |].
    set (target := Join cli.downloadsDir _).
    destruct (createAndCopy_frame fs1 target (Body resp) path) as [Hother Hsome].
    split.
    - intros Hne. destruct (String.eqb_spec path target) as [-> | Hp].
      + eexists rowNum, _. split; [apply resolve_allowed | reflexivity].
      + apply Hchange. now rewrite <- (Hother Hp).
    - intros H. apply Hsome, Hkeep, H. }
  unfold csv.ProcessCSV.
  assert (H0 : I fs) by (split; [congruence | auto]).
  destruct (os_Open csvFile) as [[| [header |] data] |]; cbn [csv.Read];
    try exact H0.
  destruct (GoInt.len header <? urlColumnIndex); [exact H0 |].
  apply loop_invariant; [| exact H0].
  intros url rowNum fs1 _. apply Hstep.
Qed.

(** X19: the callback of [main] asks the HTTP client about valid URLs
    only: two clients that answer the valid URLs in the same way give the
    same run, whatever they would answer elsewhere. *)
Theorem cli_asks_for_valid_urls_only (d d' : Downloader) (csvFile : string)
    (urlColumnIndex : Z) (fs : gmap string string) :
  (forall url, utils.IsValidURL url = true -> client d url = client d' url) ->
  csv.ProcessCSV os_Open csvFile urlColumnIndex
    (cli.onRow goos mapUnicodeLower Join creatable copyStops d) fs
  = csv.ProcessCSV os_Open csvFile urlColumnIndex
      (cli.onRow goos mapUnicodeLower Join creatable copyStops d') fs.
Proof.
  intros Hagree. unfold csv.ProcessCSV.
  destruct (os_Open csvFile) as [[| [header |] data] |]; cbn [csv.Read];
    try reflexivity.
  destruct (GoInt.len header <? urlColumnIndex); [reflexivity |].
  apply loop_ext. intros url rowNum fs1 _. unfold cli.onRow.
  destruct (utils.IsValidURL url) eqn:Hvalid; cbn [negb]; [| reflexivity].
  unfold DownloadImage. now rewrite (Hagree url Hvalid).
Qed.

End CommandLineFacts.

(** X19 on the seven rows of the scenario, with a second server that would
    answer the invalid URL of row 5. *)
Lemma cli_asks_for_valid_urls_only_witness :
  csv.ProcessCSV (fun _ => Some Samples.scenario_file) "data.csv" 2
    (cli.onRow filepath.linux (fun s => s) Samples.join (fun _ => true)
               (fun _ => None) Samples.scenario_server) ∅
  = csv.ProcessCSV (fun _ => Some Samples.scenario_file) "data.csv" 2
      (cli.onRow filepath.linux (fun s => s) Samples.join (fun _ => true)
                 (fun _ => None) Samples.other_server) ∅.
Proof.
  apply cli_asks_for_valid_urls_only.
  intros url Hvalid. unfold Samples.other_server. cbn [downloader.client].
  destruct (String.eqb_spec url "invalid-url") as [-> | _]; [| reflexivity].
  vm_compute in Hvalid. discriminate Hvalid.
Defined.

(** ** The further properties at sample inputs *)

(** X1 on the file with a record that cannot be read. *)
Lemma ValidateCSVStructure_nil_iff_witness :
  csv.ValidateCSVStructure (fun _ => Some Samples.broken_file) "data.csv" 2 = None <->
  Spec.valid_structure (fun _ => Some Samples.broken_file) "data.csv" 2.
Proof. apply ValidateCSVStructure_nil_iff. Defined.

(** X4 on the file with a single column, when the second column is
    asked for: both calls fail on the header. *)
Lemma ProcessCSV_error_iff_validation_witness :
  (exists e w',
     csv.ProcessCSV (fun _ => Some Samples.narrow_file) "data.csv" 2
       Samples.accept tt = csv.Returned None (Some e) w') <->
  (exists e,
     csv.ValidateCSVStructure (fun _ => Some Samples.narrow_file) "data.csv" 2
     = Some e /\
     forall k expected got, e <> csv.RowColumns k expected got).
Proof. apply ProcessCSV_error_iff_validation. Defined.

(** X7 at a header value that names two image types. *)
Lemma contentType_extension_range_witness :
  (downloader.getExtensionFromContentType "image/gif, image/jpeg" <> "" <->
   exists marker, In marker (map fst Spec.contentTypeTable) /\
                  Spec.occurs_in marker "image/gif, image/jpeg") /\
  (downloader.getExtensionFromContentType "image/gif, image/jpeg" = "" \/
   In (downloader.getExtensionFromContentType "image/gif, image/jpeg")
      [".jpg"; ".png"; ".gif"; ".webp"; ".bmp"; ".tiff"]) /\
  downloader.GetExtensionFromContentType "image/gif, image/jpeg"
  = downloader.getExtensionFromContentType "image/gif, image/jpeg".
Proof. apply contentType_extension_range. Defined.

(** X10 at the server that answers 404. *)
Lemma DownloadImage_nil_iff_witness :
  let outcome :=
    downloader.DownloadImage filepath.linux (fun s => s) Samples.join
      (fun _ => true) (fun _ => None) Samples.missing_server Samples.old_files
      "https://example.com/photo.jpg" "downloads" 7 in
  (snd outcome = None <->
   exists resp,
     let target :=
       Samples.join "downloads"
         (Spec.fileName 7
            (Spec.resolve filepath.linux (fun s => s)
               (downloader.ContentType resp) "https://example.com/photo.jpg")) in
     downloader.client Samples.missing_server "https://example.com/photo.jpg" = Some resp /\
     downloader.StatusCode resp = downloader.StatusOK /\
     true = true /\ @None nat = None) /\
  (forall e, snd outcome = Some e -> e <> downloader.FailedToWriteFile ->
             fst outcome = Samples.old_files).
Proof.
  apply (DownloadImage_nil_iff filepath.linux (fun s => s) Samples.join
           (fun _ => true) (fun _ => None) Samples.missing_server Samples.old_files
           "https://example.com/photo.jpg" "downloads" 7).
Defined.

(** X11 at the PNG response and a file it does not touch. *)
Lemma DownloadImage_frame_witness :
  let fs' :=
    fst (downloader.DownloadImage filepath.linux (fun s => s) Samples.join
           (fun _ => true) (fun _ => None) Samples.png_server Samples.old_files
           "https://example.com/photo.jpg" "downloads" 7) in
  (fs' !! "notes.txt" <> Samples.old_files !! "notes.txt" ->
   exists extension,
     In extension downloader.validExts /\
     "notes.txt" = Samples.join "downloads" (Spec.fileName 7 extension)) /\
  (is_Some (Samples.old_files !! "notes.txt") -> is_Some (fs' !! "notes.txt")).
Proof.
  apply (DownloadImage_frame filepath.linux (fun s => s) Samples.join
           (fun _ => true) (fun _ => None) Samples.png_server Samples.old_files
           "https://example.com/photo.jpg" "downloads" 7 "notes.txt").
Defined.

(** X18 on the seven rows of the scenario and a file that is no image of
    a row. *)
Lemma cli_writes_only_images_witness :
  let fs' :=
    Spec.final_state
      (csv.ProcessCSV (fun _ => Some Samples.scenario_file) "data.csv" 2
         (cli.onRow filepath.linux (fun s => s) Samples.join (fun _ => true)
                    (fun _ => None) Samples.scenario_server) Samples.old_files) in
  (fs' !! "notes.txt" <> Samples.old_files !! "notes.txt" ->
   Spec.image_path Samples.join "notes.txt") /\
  (is_Some (Samples.old_files !! "notes.txt") -> is_Some (fs' !! "notes.txt")).
Proof.
  apply (cli_writes_only_images filepath.linux (fun s => s) Samples.join
           (fun _ => true) (fun _ => None) (fun _ => Some Samples.scenario_file)
           Samples.scenario_server "data.csv" 2 Samples.old_files "notes.txt").
Defined.
